(** * WordBot: review scheduling, word cache and quiz sessions

    A shallow embedding of the scheduling core of [word.py] (and of the
    trigonometry quiz of [math_telegram.py] / [math_db.py]) together with
    the properties the specification states about it.

    Conventions of the embedding.
    - Python [int] and SQLite INTEGER are [Z]; a nullable column is an
      [option].  [x or 0] is [x_or_0].
    - A calendar date is its day number ([Z]); [local_date()] returns the
      ISO text of the date, whose text order is the order of the day
      numbers, and [local_today() + timedelta(days=n)] is [+ n].
    - A table is the list of its rows in rowid order; a module-level
      [dict] is a [gmap].
    - [random] and the Telegram replies are tapes carried by the world:
      every draw consumes one entry.
    - [with db() as conn:] works on a private copy [conn] of the committed
      store and publishes it on exit ([commit]); the order of commits and
      of [WORDS_CACHE.clear()] is kept in [trace].
    - A handler runs to completion: what asyncio may interleave at an
      [await] is not part of the model, and one clock reading serves a
      whole call. *)

From Stdlib Require Import ZArith List Floats.
From stdpp Require Import gmap strings list fin_maps.

Local Open Scope Z_scope.

(** ** Config *)

Definition POINTS_FOR_CORRECT : Z := 5.
Definition POINTS_FOR_CORRECT_BLITZ : Z := 7.
Definition POINTS_FOR_WRONG : Z := -4.
Definition POINTS_FOR_ADDED : Z := 0.

(** Declared by [word.py] next to the points; [record_stat] does not read
    them, it compares with the literals [2] and [1]. *)
Definition PROMOTE_THRESHOLD : Z := 2.
Definition RESET_THRESHOLD : Z := 1.

(** ** Tables *)

Module User.
Record row := mk {
  id : Z;
  tg_id : Z;
  username : string;
  role : string;
  points : Z }.

Definition set_points (p : Z) (u : row) : row :=
  mk (id u) (tg_id u) (username u) (role u) p.
Definition set_username (n : string) (u : row) : row :=
  mk (id u) (tg_id u) n (role u) (points u).
End User.

Module Group.
Record row := mk {
  id : Z;
  name : string;
  owner_id : Z }.
End Group.

Module Word.
Record row := mk {
  id : Z;
  user_id : Z;
  group_id : option Z;
  english : string;
  uzbek : string;
  created_at : Z;
  review_level : option Z;
  next_review : option Z;
  correct_count : option Z;
  last_correct_date : option Z;
  wrong_count : option Z }.

(** [UPDATE words SET correct_count=?, last_correct_date=?, wrong_count=?] *)
Definition set_streak (c : Z) (d : Z) (wr : Z) (w : row) : row :=
  mk (id w) (user_id w) (group_id w) (english w) (uzbek w) (created_at w)
     (review_level w) (next_review w) (Some c) (Some d) (Some wr).

(** [UPDATE words SET wrong_count=?] *)
Definition set_wrong (wr : Z) (w : row) : row :=
  mk (id w) (user_id w) (group_id w) (english w) (uzbek w) (created_at w)
     (review_level w) (next_review w) (correct_count w) (last_correct_date w)
     (Some wr).

(** [UPDATE words SET review_level=?, next_review=?, correct_count=0,
    wrong_count=0] *)
Definition set_review (lvl : Z) (nxt : Z) (w : row) : row :=
  mk (id w) (user_id w) (group_id w) (english w) (uzbek w) (created_at w)
     (Some lvl) (Some nxt) (Some 0) (last_correct_date w) (Some 0).
End Word.

Module Stat.
Record row := mk {
  user_id : Z;
  action : string;
  word_id : option Z;
  created_at : Z;
  local_date : Z }.
End Stat.

(** [seq_users] and [seq_words] are the [sqlite_sequence] entries of the
    two AUTOINCREMENT tables the model inserts into. *)
Record database := mkdb {
  users : list User.row;
  groups : list Group.row;
  users_groups : list (Z * Z);
  words : list Word.row;
  stats : list Stat.row;
  seq_users : Z;
  seq_words : Z }.

Definition with_users (us : list User.row) (c : database) : database :=
  mkdb us (groups c) (users_groups c) (words c) (stats c)
       (seq_users c) (seq_words c).
Definition with_groups (gs : list Group.row) (c : database) : database :=
  mkdb (users c) gs (users_groups c) (words c) (stats c)
       (seq_users c) (seq_words c).
Definition with_users_groups (ug : list (Z * Z)) (c : database) : database :=
  mkdb (users c) (groups c) ug (words c) (stats c)
       (seq_users c) (seq_words c).
Definition with_words (ws : list Word.row) (c : database) : database :=
  mkdb (users c) (groups c) (users_groups c) ws (stats c)
       (seq_users c) (seq_words c).
Definition with_stats (st : list Stat.row) (c : database) : database :=
  mkdb (users c) (groups c) (users_groups c) (words c) st
       (seq_users c) (seq_words c).
Definition with_seq_users (n : Z) (c : database) : database :=
  mkdb (users c) (groups c) (users_groups c) (words c) (stats c)
       n (seq_words c).
Definition with_seq_words (n : Z) (c : database) : database :=
  mkdb (users c) (groups c) (users_groups c) (words c) (stats c)
       (seq_users c) n.

(** ** SQL statements used by the modelled functions *)

Definition x_or_0 (x : option Z) : Z := default 0 x.

(** Python truth value of an [Optional[int]]: [None] and [0] are false. *)
Definition truthy (x : option Z) : bool :=
  match x with
  | Some z => negb (z =? 0)
  | None => false
  end.

(** [SELECT ... FROM words WHERE id=?] followed by [fetchone()]. *)
Definition select_word (wid : Z) (c : database) : option Word.row :=
  find (fun w => Word.id w =? wid) (words c).

(** [UPDATE words SET ... WHERE id=?]. *)
Definition update_word (f : Word.row -> Word.row) (wid : Z) (c : database)
  : database :=
  with_words (map (fun w => if Word.id w =? wid then f w else w) (words c)) c.

(** [DELETE FROM words WHERE ...]. *)
Definition delete_words (p : Word.row -> bool) (c : database) : database :=
  with_words (filter (fun w => negb (p w)) (words c)) c.

(** [UPDATE users SET points = MAX(points + ?, 0) WHERE id=?]. *)
Definition add_points (delta : Z) (uid : Z) (c : database) : database :=
  with_users
    (map (fun u => if User.id u =? uid
                   then User.set_points (Z.max (User.points u + delta) 0) u
                   else u) (users c)) c.

(** The CHECK constraint of [stats.action]. *)
Definition action_allowed (action : string) : bool :=
  bool_decide (action = "added") || bool_decide (action = "correct")
  || bool_decide (action = "wrong").

Definition insert_stat (r : Stat.row) (c : database) : database :=
  with_stats (stats c ++ [r]) c.

(** AUTOINCREMENT: one more than the largest rowid the table has ever
    held. *)
Definition next_rowid (seq : Z) (ids : list Z) : Z := foldr Z.max seq ids + 1.

(** ** In-memory state of the process *)

Record blitz_session := mkblitz {
  active : bool;
  correct : Z;
  wrong : Z;
  until : Z;
  job : Z }.

Record quiz_session := mkquiz {
  current_question_num : Z;
  started_at : Z;
  correct_count : Z }.

Record poll_info := mkpoll {
  chat_id : Z;
  message_id : Z;
  tg_user_id : Z;
  db_user_id : Z;
  word_id : Z;
  correct_idx : nat;
  group_id : option Z;
  question_num : Z;
  is_blitz : bool }.

(** What the bot hands to Telegram. *)
Inductive outgoing :=
| QuizNoWords (chat : Z)
| BlitzTimeUp (chat : Z) (n_correct n_wrong total score : Z)
| SendPoll (chat : Z) (question_num : option Z) (english : string)
    (options : list string) (correct_option_id : nat)
| StopPoll (chat : Z) (message : Z).

(** Telegram's answer to [send_poll]: the poll id and message id, or a
    message without a poll. *)
Inductive poll_reply :=
| PollSent (poll_id : string) (message_id : Z)
| PollMissing.

Inductive event :=
| EvCommit
| EvRollback
| EvInvalidate.

Abbreviation scope_key := (Z * option Z)%type.

Record world := mkworld {
  store : database;
  WORDS_CACHE : gmap scope_key (list Word.row);
  LAST_ASKED : gmap scope_key Z;
  GROUPS_CACHE : gmap Z (list Group.row);
  QUIZ_CACHE : gmap scope_key (list Word.row);
  BLITZ_SESSIONS : gmap Z blitz_session;
  QUIZ_SESSIONS : gmap Z quiz_session;
  ACTIVE_POLLS : gmap string poll_info;
  utc_now : Z;
  today : Z;
  rng : list nat;
  net : list poll_reply;
  outbox : list outgoing;
  trace : list event }.

Definition with_store (c : database) (s : world) : world :=
  mkworld c (WORDS_CACHE s) (LAST_ASKED s) (GROUPS_CACHE s) (QUIZ_CACHE s)
    (BLITZ_SESSIONS s) (QUIZ_SESSIONS s) (ACTIVE_POLLS s) (utc_now s)
    (today s) (rng s) (net s) (outbox s) (trace s).
Definition with_WORDS_CACHE (m : gmap scope_key (list Word.row)) (s : world)
  : world :=
  mkworld (store s) m (LAST_ASKED s) (GROUPS_CACHE s) (QUIZ_CACHE s)
    (BLITZ_SESSIONS s) (QUIZ_SESSIONS s) (ACTIVE_POLLS s) (utc_now s)
    (today s) (rng s) (net s) (outbox s) (trace s).
Definition with_LAST_ASKED (m : gmap scope_key Z) (s : world) : world :=
  mkworld (store s) (WORDS_CACHE s) m (GROUPS_CACHE s) (QUIZ_CACHE s)
    (BLITZ_SESSIONS s) (QUIZ_SESSIONS s) (ACTIVE_POLLS s) (utc_now s)
    (today s) (rng s) (net s) (outbox s) (trace s).
Definition with_GROUPS_CACHE (m : gmap Z (list Group.row)) (s : world)
  : world :=
  mkworld (store s) (WORDS_CACHE s) (LAST_ASKED s) m (QUIZ_CACHE s)
    (BLITZ_SESSIONS s) (QUIZ_SESSIONS s) (ACTIVE_POLLS s) (utc_now s)
    (today s) (rng s) (net s) (outbox s) (trace s).
Definition with_QUIZ_CACHE (m : gmap scope_key (list Word.row)) (s : world)
  : world :=
  mkworld (store s) (WORDS_CACHE s) (LAST_ASKED s) (GROUPS_CACHE s) m
    (BLITZ_SESSIONS s) (QUIZ_SESSIONS s) (ACTIVE_POLLS s) (utc_now s)
    (today s) (rng s) (net s) (outbox s) (trace s).
Definition with_BLITZ_SESSIONS (m : gmap Z blitz_session) (s : world)
  : world :=
  mkworld (store s) (WORDS_CACHE s) (LAST_ASKED s) (GROUPS_CACHE s)
    (QUIZ_CACHE s) m (QUIZ_SESSIONS s) (ACTIVE_POLLS s) (utc_now s)
    (today s) (rng s) (net s) (outbox s) (trace s).
Definition with_QUIZ_SESSIONS (m : gmap Z quiz_session) (s : world) : world :=
  mkworld (store s) (WORDS_CACHE s) (LAST_ASKED s) (GROUPS_CACHE s)
    (QUIZ_CACHE s) (BLITZ_SESSIONS s) m (ACTIVE_POLLS s) (utc_now s)
    (today s) (rng s) (net s) (outbox s) (trace s).
Definition with_ACTIVE_POLLS (m : gmap string poll_info) (s : world) : world :=
  mkworld (store s) (WORDS_CACHE s) (LAST_ASKED s) (GROUPS_CACHE s)
    (QUIZ_CACHE s) (BLITZ_SESSIONS s) (QUIZ_SESSIONS s) m (utc_now s)
    (today s) (rng s) (net s) (outbox s) (trace s).
Definition with_rng (r : list nat) (s : world) : world :=
  mkworld (store s) (WORDS_CACHE s) (LAST_ASKED s) (GROUPS_CACHE s)
    (QUIZ_CACHE s) (BLITZ_SESSIONS s) (QUIZ_SESSIONS s) (ACTIVE_POLLS s)
    (utc_now s) (today s) r (net s) (outbox s) (trace s).
Definition with_net (n : list poll_reply) (s : world) : world :=
  mkworld (store s) (WORDS_CACHE s) (LAST_ASKED s) (GROUPS_CACHE s)
    (QUIZ_CACHE s) (BLITZ_SESSIONS s) (QUIZ_SESSIONS s) (ACTIVE_POLLS s)
    (utc_now s) (today s) (rng s) n (outbox s) (trace s).
Definition with_outbox (o : list outgoing) (s : world) : world :=
  mkworld (store s) (WORDS_CACHE s) (LAST_ASKED s) (GROUPS_CACHE s)
    (QUIZ_CACHE s) (BLITZ_SESSIONS s) (QUIZ_SESSIONS s) (ACTIVE_POLLS s)
    (utc_now s) (today s) (rng s) (net s) o (trace s).
Definition with_trace (t : list event) (s : world) : world :=
  mkworld (store s) (WORDS_CACHE s) (LAST_ASKED s) (GROUPS_CACHE s)
    (QUIZ_CACHE s) (BLITZ_SESSIONS s) (QUIZ_SESSIONS s) (ACTIVE_POLLS s)
    (utc_now s) (today s) (rng s) (net s) (outbox s) t.

Definition emit (e : event) (s : world) : world :=
  with_trace (trace s ++ [e]) s.

(** Leaving a [with db() as conn:] block normally: the connection's work
    becomes the committed store. *)
Definition commit (conn : database) (s : world) : world :=
  emit EvCommit (with_store conn s).

(** Leaving it through an exception: the connection's work is dropped. *)
Definition rollback (s : world) : world := emit EvRollback s.

(** [WORDS_CACHE.clear()]. *)
Definition clear_words_cache (s : world) : world :=
  emit EvInvalidate (with_WORDS_CACHE ∅ s).

(** The result of a call: it returns a value or raises. *)
Inductive exn :=
| IntegrityError
| KeyError
| IndexError
| TypeError
| ValueError.

Inductive outcome (A : Type) :=
| Returned (a : A) (s : world)
| Raised (e : exn) (s : world).
Arguments Returned {A} a s.
Arguments Raised {A} e s.

Definition final {A} (o : outcome A) : world :=
  match o with
  | Returned _ s => s
  | Raised _ s => s
  end.

Definition returned {A} (o : outcome A) : bool :=
  match o with
  | Returned _ _ => true
  | Raised _ _ => false
  end.

(** ** Words and stats operations *)

(** The promotion table of [record_stat], indexed by the level the word has
    before it is promoted. *)
Definition days_add (level : Z) : Z :=
  if level =? 0 then 1
  else if level =? 1 then 3
  else if level =? 2 then 10
  else 30.

(** The [if w:] block of [record_stat]: it runs inside the transaction, on
    the connection [conn], and clears the cache before the block is left. *)
Definition apply_answer (action : string) (word_id : Z) (w : Word.row)
    (conn : database) (s : world) : database * world :=
  if bool_decide (action = "correct") then
    let new_count := x_or_0 (Word.correct_count w) + 1 in
    let conn1 := update_word (Word.set_streak new_count (today s) 0) word_id conn in
    if new_count =? 2 then
      let level := x_or_0 (Word.review_level w) in
      let next_date := today s + days_add level in
      let new_level := level + 1 in
      (update_word (Word.set_review new_level next_date) word_id conn1,
       clear_words_cache s)
    else (conn1, s)
  else if bool_decide (action = "wrong") then
    let new_wrong := x_or_0 (Word.wrong_count w) + 1 in
    let conn1 := update_word (Word.set_wrong new_wrong) word_id conn in
    if 1 <=? new_wrong then
      (update_word (Word.set_review 0 (today s)) word_id conn1,
       clear_words_cache s)
    else (conn1, s)
  else (conn, s).

Definition points_delta (action : string) (is_blitz : bool) : Z :=
  if bool_decide (action = "added") then POINTS_FOR_ADDED
  else if bool_decide (action = "correct") then
    (if is_blitz then POINTS_FOR_CORRECT_BLITZ else POINTS_FOR_CORRECT)
  else if bool_decide (action = "wrong") then POINTS_FOR_WRONG
  else 0.

(** [record_stat(user_id, action, word_id, is_blitz, group_id)].  The
    INSERT is refused by the CHECK constraint for any other action; the
    foreign keys of [stats] are not enforced on this connection
    ([PRAGMA foreign_keys] is only issued by [init_db]). *)
Definition record_stat (user_id : Z) (action : string) (word_id : option Z)
    (is_blitz : bool) (group_id : option Z) (s : world) : outcome unit :=
  let conn := store s in
  if negb (action_allowed action) then Raised IntegrityError (rollback s)
  else
    let conn := insert_stat
      (Stat.mk user_id action word_id (utc_now s) (today s)) conn in
    let '(conn, s) :=
      match word_id with
      | Some wid =>
          if truthy word_id then
            match select_word wid conn with
            | Some w => apply_answer action wid w conn s
            | None => (conn, s)
            end
          else (conn, s)
      | None => (conn, s)
      end in
    let delta := points_delta action is_blitz in
    let conn := if delta =? 0 then conn else add_points delta user_id conn in
    Returned tt (commit conn s).

(** [set_user_points]. *)
Definition set_user_points (user_id : Z) (points : Z) (s : world)
  : outcome unit :=
  let conn := store s in
  let conn := with_users
    (map (fun u => if User.id u =? user_id then User.set_points points u else u)
         (users conn)) conn in
  Returned tt (commit conn s).

(** [is_group_owner]: a SELECT on a connection of its own. *)
Definition is_group_owner (user_id group_id : Z) (s : world) : bool * world :=
  let conn := store s in
  let row := find (fun r => Group.id r =? group_id) (groups conn) in
  let s := commit conn s in
  (match row with
   | Some r => Group.owner_id r =? user_id
   | None => false
   end, s).

(** [get_user_row_by_tg]. *)
Definition get_user_row_by_tg (tg_id : Z) (s : world)
  : option User.row * world :=
  let conn := store s in
  (find (fun r => User.tg_id r =? tg_id) (users conn), commit conn s).

(** [db_role_is_admin]. *)
Definition db_role_is_admin (tg_id : Z) (s : world) : bool * world :=
  let '(row, s) := get_user_row_by_tg tg_id s in
  (match row with
   | Some r => bool_decide (User.role r = "admin")
   | None => false
   end, s).

(** [is_admin]: [ADMIN_IDS] is read from the environment when the module
    is loaded; [or] does not look at the table for a listed id. *)
Definition is_admin (ADMIN_IDS : gset Z) (tg_id : Z) (s : world)
  : bool * world :=
  if bool_decide (tg_id ∈ ADMIN_IDS) then (true, s)
  else db_role_is_admin tg_id s.

(** [add_word]; [english] and [uzbek] stand for the stripped texts. *)
Definition add_word (user_id : Z) (english uzbek : string)
    (group_id : option Z) (s : world) : outcome Z :=
  let conn := store s in
  let lastrowid := next_rowid (seq_words conn) (map Word.id (words conn)) in
  let conn := with_seq_words lastrowid
    (with_words
       (words conn ++
        [Word.mk lastrowid user_id group_id english uzbek (utc_now s)
           (Some 0) (Some (today s)) (Some 0) (Some (today s)) (Some 0)])
       conn) in
  let conn := insert_stat
    (Stat.mk user_id "added" (Some lastrowid) (utc_now s) (today s)) conn in
  let conn := add_points POINTS_FOR_ADDED user_id conn in
  let s := commit conn s in
  let s := clear_words_cache s in
  Returned lastrowid s.

(** [delete_word_if_owner]. *)
Definition delete_word_if_owner (word_id user_id : Z) (s : world)
  : outcome bool :=
  let conn := store s in
  match find (fun w => (Word.id w =? word_id) && (Word.user_id w =? user_id))
             (words conn) with
  | None => Returned false (commit conn s)
  | Some _ =>
      let conn := delete_words (fun w => Word.id w =? word_id) conn in
      let s := commit conn s in
      let s := clear_words_cache s in
      Returned true s
  end.

(** SQL [group_id = ?]: never true for a NULL group. *)
Definition in_group (g : Z) (w : Word.row) : bool :=
  match Word.group_id w with
  | Some g' => g' =? g
  | None => false
  end.

(** [delete_all_words]; the test here is [group_id is not None]. *)
Definition delete_all_words (user_id : Z) (group_id : option Z) (s : world)
  : outcome bool :=
  let conn := store s in
  match group_id with
  | Some g =>
      let '(owner, s) := is_group_owner user_id g s in
      if negb owner then Returned false (commit conn s)
      else
        let conn := delete_words (in_group g) conn in
        let s := commit conn s in
        let s := clear_words_cache s in
        Returned true s
  | None =>
      let conn := delete_words (fun w => Word.user_id w =? user_id) conn in
      let s := commit conn s in
      let s := clear_words_cache s in
      Returned true s
  end.

(** [admin_delete_word]. *)
Definition admin_delete_word (word_id : Z) (s : world) : outcome bool :=
  let conn := store s in
  match select_word word_id conn with
  | None => Returned false (commit conn s)
  | Some _ =>
      let conn := delete_words (fun w => Word.id w =? word_id) conn in
      let s := commit conn s in
      let s := clear_words_cache s in
      Returned true s
  end.

(** [delete_group]: [is_admin] is only asked when the requester is not the
    owner. *)
Definition delete_group (ADMIN_IDS : gset Z) (group_id requester_id : Z)
    (s : world) : outcome bool :=
  let conn := store s in
  match find (fun r => Group.id r =? group_id) (groups conn) with
  | None => Returned false (commit conn s)
  | Some row =>
      let '(allowed, s) :=
        if Group.owner_id row =? requester_id then (true, s)
        else is_admin ADMIN_IDS requester_id s in
      if negb allowed then Returned false (commit conn s)
      else
        let conn := delete_words (in_group group_id) conn in
        let conn := with_users_groups
          (filter (fun ug => negb (snd ug =? group_id)) (users_groups conn))
          conn in
        let conn := with_groups
          (filter (fun r => negb (Group.id r =? group_id)) (groups conn))
          conn in
        let s := commit conn s in
        let s := clear_words_cache s in
        let s := with_GROUPS_CACHE ∅ s in
        let s := with_QUIZ_CACHE ∅ s in
        Returned true s
  end.

(** [delete_group_word]. *)
Definition delete_group_word (ADMIN_IDS : gset Z)
    (word_id group_id requester_id : Z) (s : world) : outcome bool :=
  let '(owner, s) := is_group_owner requester_id group_id s in
  let '(allowed, s) :=
    if owner then (true, s) else is_admin ADMIN_IDS requester_id s in
  if negb allowed then Returned false s
  else
    let conn := store s in
    let conn := delete_words
      (fun w => (Word.id w =? word_id) && in_group group_id w) conn in
    let s := commit conn s in
    let s := clear_words_cache s in
    Returned true s.

(** ** Random draws *)

(** One draw from the tape; an exhausted tape yields 0. *)
Definition draw (s : world) : nat * world :=
  (hd 0%nat (rng s), with_rng (tl (rng s)) s).

(** [random.choice(l)]: [None] stands for the IndexError on an empty
    sequence. *)
Definition choice {A} (l : list A) (s : world) : option A * world :=
  let '(r, s) := draw s in
  (l !! (r mod length l)%nat, s).

(** A permutation of [l] chosen by the draws: position [r mod length] is
    taken out first, then the same on the rest.  It stands for
    [ORDER BY RANDOM()] and for [random.shuffle]. *)
Fixpoint permute {A} (n : nat) (l : list A) (s : world) : list A * world :=
  match n with
  | O => ([], s)
  | S n' =>
      let '(r, s) := draw s in
      let i := (r mod length l)%nat in
      match l !! i with
      | Some x =>
          let '(rest, s) := permute n' (delete i l) s in
          (x :: rest, s)
      | None => ([], s)
      end
  end.

Definition shuffle {A} (l : list A) (s : world) : list A * world :=
  permute (length l) l s.

(** ** Picking a word and its distractors *)

(** The filter of [pick_user_word]'s SELECT:
    [next_review IS NULL OR next_review <= ?]. *)
Definition eligible (d : Z) (w : Word.row) : bool :=
  match Word.next_review w with
  | None => true
  | Some n => n <=? d
  end.

(** The rows [pick_user_word] loads on a cache miss. *)
Definition load_eligible (user_id : Z) (group_id : option Z) (s : world)
  : list Word.row :=
  match group_id with
  | Some g =>
      if truthy group_id
      then filter (fun w => in_group g w && eligible (today s) w)
                  (words (store s))
      else filter (fun w => (Word.user_id w =? user_id)
                            && eligible (today s) w) (words (store s))
  | None =>
      filter (fun w => (Word.user_id w =? user_id) && eligible (today s) w)
             (words (store s))
  end.

(** [pick_user_word]. *)
Definition pick_user_word (user_id : Z) (group_id : option Z) (s : world)
  : option Word.row * world :=
  let key := (user_id, group_id) in
  let '(words, s) :=
    match WORDS_CACHE s !! key with
    | Some ws => (ws, s)
    | None =>
        let rows := load_eligible user_id group_id s in
        (rows,
         commit (store s)
           (with_WORDS_CACHE (<[key := rows]> (WORDS_CACHE s)) s))
    end in
  match words with
  | [] => (None, s)
  | _ :: _ =>
      let last_id := LAST_ASKED s !! key in
      if truthy last_id && (1 <? length words)%nat then
        let candidates :=
          filter (fun w => negb (bool_decide (Some (Word.id w) = last_id)))
                 words in
        match candidates with
        | [] => choice words s
        | _ :: _ => choice candidates s
        end
      else choice words s
  end.

Definition placeholders : list string :=
  ["nomuvofiq"; "aniq emas"; "bog'liq emas"; "bilinmaydi"].

(** The [while len(opts) < needed] loop, [n] being the number of missing
    options when it is entered. *)
Fixpoint pad_placeholders (n : nat) (opts : list string) (s : world)
  : list string * world :=
  match n with
  | O => (opts, s)
  | S n' =>
      let '(p, s) := choice placeholders s in
      match p with
      | Some p => pad_placeholders n' (opts ++ [p]) s
      | None => (opts, s)
      end
  end.

(** The rows the SELECT of [get_distractors] ranges over. *)
Definition distractor_rows (user_id correct_word_id : Z)
    (group_id : option Z) (c : database) : list Word.row :=
  match group_id with
  | Some g =>
      if truthy group_id
      then filter (fun w => in_group g w
                            && negb (Word.id w =? correct_word_id)) (words c)
      else filter (fun w => (Word.user_id w =? user_id)
                            && negb (Word.id w =? correct_word_id)) (words c)
  | None =>
      filter (fun w => (Word.user_id w =? user_id)
                       && negb (Word.id w =? correct_word_id)) (words c)
  end.

(** [get_distractors]. *)
Definition get_distractors (user_id correct_word_id : Z) (needed : Z)
    (group_id : option Z) (s : world) : list string * world :=
  let conn := store s in
  let candidates := distractor_rows user_id correct_word_id group_id conn in
  let '(ordered, s) := shuffle candidates s in
  let rows := take (Z.to_nat (Z.max needed 0)) ordered in
  let s := commit conn s in
  let opts := map Word.uzbek rows in
  let '(opts, s) :=
    pad_placeholders (Z.to_nat (needed - Z.of_nat (length opts))) opts s in
  (take (Z.to_nat needed) opts, s).

(** ** Users *)

(** [get_or_create_user]; the row it also writes to [settings] (language
    and reminder preferences) is outside the model. *)
Definition get_or_create_user (tg_id : Z) (username : option string)
    (s : world) : Z * world :=
  let conn := store s in
  let name := default "" username in
  match find (fun r => User.tg_id r =? tg_id) (users conn) with
  | Some row =>
      let conn := with_users
        (map (fun r => if User.tg_id r =? tg_id
                       then User.set_username name r else r) (users conn))
        conn in
      (User.id row, commit conn s)
  | None =>
      let uid := next_rowid (seq_users conn) (map User.id (users conn)) in
      let conn := with_seq_users uid
        (with_users (users conn ++ [User.mk uid tg_id name "user" 0]) conn) in
      (uid, commit conn s)
  end.

(** [get_ui_lang] / [t_for]: a SELECT on [settings]; only its connection
    shows in the model. *)
Definition get_ui_lang (user_id : Z) (s : world) : world :=
  commit (store s) s.

(** ** Telegram *)

Definition send_message (m : outgoing) (s : world) : world :=
  with_outbox (outbox s ++ [m]) s.

Definition send_poll (p : outgoing) (s : world) : poll_reply * world :=
  (hd PollMissing (net s),
   with_net (tl (net s)) (with_outbox (outbox s ++ [p]) s)).

(** [options.index(x)]. *)
Definition index (x : string) (options : list string) : option nat :=
  fst <$> list_find (fun y => y = x) options.

(** ** Quiz polls *)

(** [send_quiz_poll]. *)
Definition send_quiz_poll (chat_id db_user_id tg_user_id : Z)
    (group_id : option Z) (question_num : Z) (s : world) : outcome bool :=
  let '(word, s) := pick_user_word db_user_id group_id s in
  match word with
  | None =>
      let s := get_ui_lang db_user_id s in
      let s := send_message (QuizNoWords chat_id) s in
      let s := with_QUIZ_SESSIONS (delete tg_user_id (QUIZ_SESSIONS s)) s in
      Returned false s
  | Some word =>
      let s := with_LAST_ASKED
        (<[(db_user_id, group_id) := Word.id word]> (LAST_ASKED s)) s in
      let '(distractors, s) :=
        get_distractors db_user_id (Word.id word) 3 group_id s in
      let '(options, s) := shuffle (Word.uzbek word :: distractors) s in
      match index (Word.uzbek word) options with
      | None => Raised ValueError s
      | Some correct_idx =>
          let s := get_ui_lang db_user_id s in
          let '(msg, s) :=
            send_poll (SendPoll chat_id (Some question_num)
                         (Word.english word) options correct_idx) s in
          match msg with
          | PollMissing => Returned false s
          | PollSent poll_id message_id =>
              let s :=
                match QUIZ_SESSIONS s !! tg_user_id with
                | None =>
                    with_QUIZ_SESSIONS
                      (<[tg_user_id := mkquiz 1 (utc_now s) 0]>
                         (QUIZ_SESSIONS s)) s
                | Some sess =>
                    with_QUIZ_SESSIONS
                      (<[tg_user_id :=
                           mkquiz question_num (started_at sess)
                             (correct_count sess)]> (QUIZ_SESSIONS s)) s
                end in
              let s := with_ACTIVE_POLLS
                (<[poll_id :=
                     mkpoll chat_id message_id tg_user_id db_user_id
                       (Word.id word) correct_idx group_id question_num
                       false]> (ACTIVE_POLLS s)) s in
              Returned true s
          end
      end
  end.

(** ** Blitz *)

(** [send_blitz_poll_app]: the poll is sent before [BLITZ_SESSIONS] is
    indexed for the question number. *)
Definition send_blitz_poll_app (chat_id db_user_id tg_user_id : Z)
    (group_id : option Z) (s : world) : outcome unit :=
  let '(word, s) := pick_user_word db_user_id group_id s in
  match word with
  | None =>
      let s := get_ui_lang db_user_id s in
      Returned tt (send_message (QuizNoWords chat_id) s)
  | Some word =>
      let s := with_LAST_ASKED
        (<[(db_user_id, group_id) := Word.id word]> (LAST_ASKED s)) s in
      let '(distractors, s) :=
        get_distractors db_user_id (Word.id word) 3 group_id s in
      let '(options, s) := shuffle (Word.uzbek word :: distractors) s in
      match index (Word.uzbek word) options with
      | None => Raised ValueError s
      | Some correct_idx =>
          let '(msg, s) :=
            send_poll (SendPoll chat_id None (Word.english word) options
                         correct_idx) s in
          match msg with
          | PollMissing => Returned tt s
          | PollSent poll_id message_id =>
              match BLITZ_SESSIONS s !! tg_user_id with
              | None => Raised KeyError s
              | Some sess =>
                  Returned tt
                    (with_ACTIVE_POLLS
                       (<[poll_id :=
                            mkpoll chat_id message_id tg_user_id db_user_id
                              (Word.id word) correct_idx group_id
                              (correct sess + wrong sess + 1) true]>
                          (ACTIVE_POLLS s)) s)
              end
          end
      end
  end.

(** [blitz_start_cb] once the duration has been parsed; the job it hands
    to the job queue is the later call of [blitz_time_up_job]. *)
Definition blitz_start_cb (u_id : Z) (username : option string)
    (minutes : Z) (chat_id : Z) (selected_group : option Z) (s : world)
  : outcome unit :=
  let '(uid, s) := get_or_create_user u_id username s in
  let s := get_ui_lang uid s in
  let until := utc_now s + 60 * minutes in
  let s := with_BLITZ_SESSIONS
    (<[u_id := mkblitz true 0 0 until u_id]> (BLITZ_SESSIONS s)) s in
  send_blitz_poll_app chat_id uid u_id selected_group s.

(** [blitz_time_up_job]: the timer of a blitz session. *)
Definition blitz_time_up_job (tg_id : Z) (s : world) : outcome unit :=
  match BLITZ_SESSIONS s !! tg_id with
  | None => Returned tt s
  | Some sess =>
      let total := correct sess + wrong sess in
      let score := correct sess * POINTS_FOR_CORRECT_BLITZ
                   + wrong sess * POINTS_FOR_WRONG in
      let '(uid, s) := get_or_create_user tg_id None s in
      let s := get_ui_lang uid s in
      let s := send_message
        (BlitzTimeUp tg_id (correct sess) (wrong sess) total score) s in
      Returned tt (with_BLITZ_SESSIONS (delete tg_id (BLITZ_SESSIONS s)) s)
  end.

(** ** Poll answers *)

Record poll_answer := mkanswer {
  poll_id : string;
  user : Z;
  option_ids : list nat }.

(** The session bookkeeping of [on_poll_answer] after [record_stat]. *)
Definition count_answer (is_correct : bool) (blitz : bool) (uid : Z)
    (s : world) : world :=
  if is_correct then
    if blitz then
      match BLITZ_SESSIONS s !! uid with
      | Some sess =>
          with_BLITZ_SESSIONS
            (<[uid := mkblitz (active sess) (correct sess + 1) (wrong sess)
                        (until sess) (job sess)]> (BLITZ_SESSIONS s)) s
      | None => s
      end
    else
      match QUIZ_SESSIONS s !! uid with
      | Some sess =>
          with_QUIZ_SESSIONS
            (<[uid := mkquiz (current_question_num sess) (started_at sess)
                        (correct_count sess + 1)]> (QUIZ_SESSIONS s)) s
      | None => s
      end
  else
    if blitz then
      match BLITZ_SESSIONS s !! uid with
      | Some sess =>
          with_BLITZ_SESSIONS
            (<[uid := mkblitz (active sess) (correct sess) (wrong sess + 1)
                        (until sess) (job sess)]> (BLITZ_SESSIONS s)) s
      | None => s
      end
    else s.

(** [on_poll_answer]. *)
Definition on_poll_answer (ans : poll_answer) (s : world) : outcome unit :=
  match ACTIVE_POLLS s !! poll_id ans with
  | None => Returned tt s
  | Some info =>
      if negb (user ans =? tg_user_id info) then Returned tt s
      else
        match option_ids ans with
        | [] => Returned tt s
        | chosen :: _ =>
            let is_correct := bool_decide (chosen = correct_idx info) in
            let scored :=
              if is_correct
              then record_stat (db_user_id info) "correct"
                     (Some (word_id info)) (is_blitz info) (group_id info) s
              else record_stat (db_user_id info) "wrong"
                     (Some (word_id info)) false (group_id info) s in
            match scored with
            | Raised e s => Raised e s
            | Returned _ s =>
                let s := count_answer is_correct (is_blitz info) (user ans) s in
                let s := send_message
                  (StopPoll (chat_id info) (message_id info)) s in
                let next :=
                  if is_blitz info
                  then send_blitz_poll_app (chat_id info) (db_user_id info)
                         (tg_user_id info) (group_id info) s
                  else
                    match send_quiz_poll (chat_id info) (db_user_id info)
                            (tg_user_id info) (group_id info)
                            (question_num info + 1) s with
                    | Returned _ s => Returned tt s
                    | Raised e s => Raised e s
                    end in
                match next with
                | Raised e s => Raised e s
                | Returned _ s =>
                    Returned tt
                      (with_ACTIVE_POLLS
                         (delete (poll_id ans) (ACTIVE_POLLS s)) s)
                end
            end
        end
  end.

(** The handlers run one after the other; the framework logs what a
    handler raises and goes on with the next update. *)
Definition run_answers (answers : list poll_answer) (s : world) : world :=
  foldl (fun s ans => final (on_poll_answer ans s)) s answers.

(** The row [record_stat] leaves behind for a correct answer. *)
Definition after_correct (d : Z) (w : Word.row) : Word.row :=
  let new_count := x_or_0 (Word.correct_count w) + 1 in
  let w1 := Word.set_streak new_count d 0 w in
  if new_count =? 2 then
    let level := x_or_0 (Word.review_level w) in
    Word.set_review (level + 1) (d + days_add level) w1
  else w1.

(** The row [record_stat] leaves behind for a wrong answer. *)
Definition after_wrong (d : Z) (w : Word.row) : Word.row :=
  let new_wrong := x_or_0 (Word.wrong_count w) + 1 in
  let w1 := Word.set_wrong new_wrong w in
  if 1 <=? new_wrong then Word.set_review 0 d w1 else w1.


(** The list [pick_user_word] chooses from: the cached list of the key
    or, when the key is absent, the rows it loads. *)
Definition eligible_list (user_id : Z) (group_id : option Z) (s : world)
  : list Word.row :=
  match WORDS_CACHE s !! (user_id, group_id) with
  | Some ws => ws
  | None => load_eligible user_id group_id s
  end.

(** Time passing between two updates. *)
Definition with_clock (now day : Z) (s : world) : world :=
  mkworld (store s) (WORDS_CACHE s) (LAST_ASKED s) (GROUPS_CACHE s)
    (QUIZ_CACHE s) (BLITZ_SESSIONS s) (QUIZ_SESSIONS s) (ACTIVE_POLLS s)
    now day (rng s) (net s) (outbox s) (trace s).

(** [quiet s s']: [s'] has the store, the last-asked markers, the sessions
    and the open polls of [s]; the word cache, the tapes, the outbox and
    the trace may differ. *)
Definition quiet (s s' : world) : Prop :=
  store s' = store s /\
  LAST_ASKED s' = LAST_ASKED s /\
  BLITZ_SESSIONS s' = BLITZ_SESSIONS s /\
  QUIZ_SESSIONS s' = QUIZ_SESSIONS s /\
  ACTIVE_POLLS s' = ACTIVE_POLLS s.

(** The answer [on_poll_answer] hands to [record_stat]. *)
Definition scored_as (info : poll_info) (chosen : nat) (s : world)
  : outcome unit :=
  if bool_decide (chosen = correct_idx info)
  then record_stat (db_user_id info) "correct" (Some (word_id info))
         (is_blitz info) (group_id info) s
  else record_stat (db_user_id info) "wrong" (Some (word_id info)) false
         (group_id info) s.

(** What the design rule asks of a call that changed words: on return the
    word cache is empty, and the last two steps of the call were the commit
    and then the invalidation. *)
Definition invalidated_after_commit (s s' : world) : Prop :=
  WORDS_CACHE s' = ∅ /\
  exists pre, trace s' = trace s ++ pre ++ [EvCommit; EvInvalidate].

(** The order [record_stat] has on a promotion or a demotion. *)
Definition invalidated_before_commit (s s' : world) : Prop :=
  WORDS_CACHE s' = ∅ /\
  trace s' = trace s ++ [EvInvalidate; EvCommit].

(** ** A small world used to run the model

    One user (id 1, Telegram id 100, 3 points) with the two words
    cat/mushuk and dog/it, both new and due on day 20000. *)

Definition demo_cat : Word.row :=
  Word.mk 1 1 None "cat" "mushuk" 0 (Some 0) (Some 20000) (Some 0)
    (Some 20000) (Some 0).
Definition demo_dog : Word.row :=
  Word.mk 2 1 None "dog" "it" 0 (Some 0) (Some 20000) (Some 0)
    (Some 20000) (Some 0).

Definition demo_db : database :=
  mkdb [User.mk 1 100 "ali" "user" 3] [] [] [demo_cat; demo_dog] [] 1 2.

Definition demo_world : world :=
  mkworld demo_db ∅ ∅ ∅ ∅ ∅ ∅ ∅ 1728000000 20000 [] [] [] [].

(** Two words of one user with the same translation. *)
Definition synonym_big : Word.row :=
  Word.mk 1 1 None "big" "katta" 0 (Some 0) (Some 20000) (Some 0)
    (Some 20000) (Some 0).
Definition synonym_large : Word.row :=
  Word.mk 2 1 None "large" "katta" 0 (Some 0) (Some 20000) (Some 0)
    (Some 20000) (Some 0).

Definition synonyms_world : world :=
  mkworld
    (mkdb [User.mk 1 100 "ali" "user" 3] [] [] [synonym_big; synonym_large]
       [] 1 2)
    ∅ ∅ ∅ ∅ ∅ ∅ ∅ 1728000000 20000 [] [] [] [].

(** A user whose word "dog" was promoted on day 20000 and is due again on
    day 20001, while "cat" is due on day 20000. *)
Definition later_dog : Word.row :=
  Word.mk 2 1 None "dog" "it" 0 (Some 1) (Some 20001) (Some 0)
    (Some 20000) (Some 0).

Definition later_world : world :=
  mkworld
    (mkdb [User.mk 1 100 "ali" "user" 3] [] [] [demo_cat; later_dog] [] 1 2)
    ∅ ∅ ∅ ∅ ∅ ∅ ∅ 1728000000 20000 [] [PollSent "poll-1" 501] [] [].

(** [demo_world] with Telegram ready to accept one poll. *)
Definition demo_world_online : world :=
  with_net [PollSent "poll-1" 501] demo_world.

(** [demo_world_online] after a one-minute blitz has been started for the
    user (the poll "poll-1" asks "cat") and its timer has fired. *)
Definition blitz_started_world : world :=
  final (blitz_start_cb 100 (Some "ali") 1 100 None demo_world_online).
Definition blitz_over_world : world :=
  final (blitz_time_up_job 100 blitz_started_world).

(** ** The trigonometry quiz ([math_quiz.py], [math_db.py],
    [math_telegram.py])

    A quiz session with a fixed number of questions.  The timestamps and
    the per-question accuracy table [math_question_stats] are left out;
    REAL columns and Python floats are IEEE binary64 numbers. *)

Module Math.

Record question := mkquestion {
  angle : Z;
  function : string;
  correct_answer : string;
  options : list string }.

Module Session.
Record row := mk {
  id : Z;
  user_id : Z;
  tg_id : Z;
  total_questions : Z;
  correct_count : Z;
  wrong_count : Z;
  percentage : float;
  status : string }.
End Session.

Module Answer.
Record row := mk {
  session_id : Z;
  question_number : Z;
  angle : Z;
  function : string;
  correct_answer : string;
  user_answer : string;
  is_correct : bool }.
End Answer.

Module Stats.
Record row := mk {
  user_id : Z;
  tg_id : Z;
  total_sessions : Z;
  total_questions : Z;
  total_correct : Z;
  total_wrong : Z;
  average_percentage : float;
  best_score : float;
  best_session_id : option Z;
  is_unlocked : Z }.
End Stats.

Record mathdb := mkmathdb {
  math_quiz_sessions : list Session.row;
  math_quiz_answers : list Answer.row;
  math_user_stats : list Stats.row;
  seq_sessions : Z }.

(** [context.user_data['math_quiz_session']]; [score] is the counter of
    the [MathQuiz] object kept in it. *)
Record quiz_data := mkquiz_data {
  session_id : Z;
  score : Z;
  questions : list question;
  current_index : nat;
  correct_count : Z;
  wrong_count : Z }.

(** The database file and one user's [context.user_data]. *)
Record state := mkstate {
  db : mathdb;
  math_quiz_session : option quiz_data }.





(** [random.sample(population, k)] for [0 <= k], driven by [draws]. *)
Fixpoint sample {A} (k : nat) (population : list A) (draws : list nat)
  : list A :=
  match k with
  | O => []
  | S k' =>
      let i := (hd 0%nat draws mod length population)%nat in
      match population !! i with
      | Some x => x :: sample k' (delete i population) (tl draws)
      | None => []
      end
  end.

(** [MathQuiz.generate_quiz_session] once the section is unlocked;
    [all_questions] is the list [generate_all_questions] builds from the
    trigonometry table.  [None] is the ValueError of [random.sample] for a
    negative size. *)
Definition generate_quiz_session (all_questions : list question)
    (num_questions : Z) (draws : list nat) : option (list question) :=
  match all_questions with
  | [] => Some []
  | _ :: _ =>
      let k := Z.min num_questions (Z.of_nat (length all_questions)) in
      if k <? 0 then None
      else Some (sample (Z.to_nat k) all_questions draws)
  end.

(** [MathDatabase.is_user_unlocked]. *)
Definition is_user_unlocked (user_id : Z) (d : mathdb) : bool :=
  match find (fun r => Stats.user_id r =? user_id) (math_user_stats d) with
  | Some r => Stats.is_unlocked r =? 1
  | None => false
  end.

(** [MathDatabase.create_quiz_session]. *)
Definition create_quiz_session (user_id tg_id total_questions : Z)
    (d : mathdb) : Z * mathdb :=
  let sid := next_rowid (seq_sessions d)
               (map Session.id (math_quiz_sessions d)) in
  (sid,
   mkmathdb
     (math_quiz_sessions d ++
      [Session.mk sid user_id tg_id total_questions 0 0 0%float
         "in_progress"])
     (math_quiz_answers d) (math_user_stats d) sid).

(** [MathDatabase.save_quiz_answer]. *)
Definition save_quiz_answer (r : Answer.row) (d : mathdb) : mathdb :=
  mkmathdb (math_quiz_sessions d) (math_quiz_answers d ++ [r])
    (math_user_stats d) (seq_sessions d).

(** [MathBotHandler.start_quiz]: [db_user_id] is
    [context.user_data.get('db_user_id')].  [None] is an exception; a
    refused start leaves the state as it is. *)
Definition start_quiz (db_user_id : option Z) (user_id : Z)
    (all_questions : list question) (draws : list nat) (num_questions : Z)
    (st : state) : option state :=
  match db_user_id with
  | Some uid =>
      if negb (truthy db_user_id) then Some st
      else if negb (is_user_unlocked uid (db st)) then Some st
      else
        match generate_quiz_session all_questions num_questions draws with
        | None => None
        | Some [] => Some st
        | Some (q :: qs) =>
            let '(sid, d) :=
              create_quiz_session uid user_id num_questions (db st) in
            Some (mkstate d (Some (mkquiz_data sid 0 (q :: qs) 0 0 0)))
        end
  | None => Some st
  end.

(** [MathQuiz.check_answer]: is the chosen option the correct answer;
    [None] is the IndexError of [question["options"][i]]. *)
Definition check_answer (q : question) (selected_option_index : nat)
  : option bool :=
  (fun selected => bool_decide (selected = correct_answer q))
    <$> options q !! selected_option_index.

(** [MathBotHandler.process_answer]; [None] is an IndexError, raised
    before anything is written. *)
Definition process_answer (answer_index : nat) (st : state) : option state :=
  match math_quiz_session st with
  | None => Some st
  | Some qd =>
      match questions qd !! current_index qd with
      | None => None
      | Some question =>
          match check_answer question answer_index,
                options question !! answer_index with
          | Some is_correct, Some user_answer =>
              let d := save_quiz_answer
                (Answer.mk (session_id qd)
                   (Z.of_nat (current_index qd) + 1) (angle question)
                   (function question) (correct_answer question) user_answer
                   is_correct) (db st) in
              Some (mkstate d
                (Some (mkquiz_data (session_id qd)
                   (if is_correct then score qd + 1 else score qd)
                   (questions qd) (S (current_index qd))
                   (if is_correct then correct_count qd + 1
                    else correct_count qd)
                   (if is_correct then wrong_count qd
                    else wrong_count qd + 1))))
          | _, _ => None
          end
      end
  end.




(** The answers of a user, one after the other. *)
Fixpoint process_answers (answers : list nat) (st : state) : option state :=
  match answers with
  | [] => Some st
  | a :: rest =>
      match process_answer a st with
      | Some st' => process_answers rest st'
      | None => None
      end
  end.

(** How many of the answers pick the correct option of their question. *)
Fixpoint right_answers (qs : list question) (answers : list nat) : Z :=
  match qs, answers with
  | q :: qs', a :: rest =>
      (if bool_decide (check_answer q a = Some true) then 1 else 0)
      + right_answers qs' rest
  | _, _ => 0
  end.

(** Six questions and a user who has unlocked the section. *)
Definition demo_questions : list question :=
  [mkquestion 0 "sin" "0" ["0"; "1/3"; "2/3"; "2"];
   mkquestion 30 "sin" "1/2" ["1/3"; "1/2"; "2/3"; "2"];
   mkquestion 90 "cos" "0" ["1/4"; "3/4"; "0"; "2"];
   mkquestion 45 "tan" "1" ["1/2"; "1"; "2"; "-2/√3"];
   mkquestion 60 "cos" "1/2" ["1/2"; "1/3"; "2/3"; "2"];
   mkquestion 180 "cos" "-1" ["-1"; "1/3"; "2/3"; "2"]].

Definition demo_state : state :=
  mkstate
    (mkmathdb [] [] [Stats.mk 1 100 0 0 0 0 0%float 0%float None 1] 0)
    None.

End Math.

(** The counters of every stored word are in the range [record_stat] and
    [add_word] leave them in: no pending wrong answer, and a streak of 0
    or 1. *)
Definition counts_ok (c : database) : Prop :=
  Forall (fun w => x_or_0 (Word.wrong_count w) = 0 /\
                   (x_or_0 (Word.correct_count w) = 0 \/
                    x_or_0 (Word.correct_count w) = 1)) (words c).

(** [demo_world] with Telegram ready to accept six polls. *)
Definition demo_world_six_polls : world :=
  with_net [PollSent "p1" 501; PollSent "p2" 502; PollSent "p3" 503;
            PollSent "p4" 504; PollSent "p5" 505; PollSent "p6" 506]
    demo_world.

(** ** Lines of text ([parse_word_line], [add_words_from_lines])

    A Python [str] is the list of its code points; the texts of the
    tables are their UTF-8 encodings. *)

Abbreviation str := (list N).

Definition HYPHEN : N := 45.
Definition EN_DASH : N := 8211.
Definition EM_DASH : N := 8212.
Definition COLON : N := 58.

(** The characters [str.strip()] removes: U+0009..U+000D, U+001C..U+0020,
    U+0085, U+00A0, U+1680, U+2000..U+200A, U+2028, U+2029, U+202F, U+205F
    and U+3000. *)
Definition isspace (c : N) : bool :=
  ((9 <=? c) && (c <=? 13) || (28 <=? c) && (c <=? 32) || (c =? 133)
   || (c =? 160) || (c =? 5760) || (8192 <=? c) && (c <=? 8202)
   || (c =? 8232) || (c =? 8233) || (c =? 8239) || (c =? 8287)
   || (c =? 12288))%N.

Fixpoint lstrip (l : str) : str :=
  match l with
  | [] => []
  | c :: rest => if isspace c then lstrip rest else l
  end.

Definition rstrip (l : str) : str := rev (lstrip (rev l)).

Definition strip (l : str) : str := rstrip (lstrip l).

(** [l.replace(a, b)] for one-character [a] and [b]. *)
Definition replace (a b : N) (l : str) : str :=
  map (fun c => if (c =? a)%N then b else c) l.

(** [l.split(sep, 1)] when [sep in l]: the text before the first [sep] and
    the text after it; [None] when [sep] does not occur. *)
Fixpoint split_once (sep : N) (l : str) : option (str * str) :=
  match l with
  | [] => None
  | c :: rest =>
      if (c =? sep)%N then Some ([], rest)
      else match split_once sep rest with
           | Some (a, b) => Some (c :: a, b)
           | None => None
           end
  end.

(** The three messages of the ValueError [parse_word_line] raises. *)
Inductive parse_error :=
| EmptyLine
| NoSeparator
| EmptyPart.

(** [parse_word_line]. *)
Definition parse_word_line (line : str) : parse_error + str * str :=
  match line with
  | [] => inl EmptyLine
  | _ :: _ =>
      match strip line with
      | [] => inl EmptyLine
      | _ :: _ =>
          let normalized :=
            replace EM_DASH HYPHEN (replace EN_DASH HYPHEN line) in
          let parts :=
            match split_once HYPHEN normalized with
            | Some p => Some p
            | None => split_once COLON normalized
            end in
          match parts with
          | None => inl NoSeparator
          | Some (a, b) =>
              let eng := strip a in
              let uz := strip b in
              match eng, uz with
              | _ :: _, _ :: _ => inr (eng, uz)
              | _, _ => inl EmptyPart
              end
          end
      end
  end.

(** UTF-8, the encoding of the TEXT columns. *)
Definition utf8_char (c : N) : list N :=
  (if c <? 128 then [c]
   else if c <? 2048 then [192 + c / 64; 128 + c mod 64]
   else if c <? 65536
        then [224 + c / 4096; 128 + (c / 64) mod 64; 128 + c mod 64]
        else [240 + c / 262144; 128 + (c / 4096) mod 64;
              128 + (c / 64) mod 64; 128 + c mod 64])%N.

Definition utf8 (l : str) : string :=
  String.string_of_list_ascii (map Ascii.ascii_of_N (concat (map utf8_char l))).

(** [add_words_from_lines]: the loop over [enumerate(lines, start=1)];
    an error is kept as the line number and the message's kind.  The
    texts [parse_word_line] returns are stripped, so the [strip()] of
    [add_word] leaves them as they are. *)
Fixpoint add_words_loop (user_id : Z) (group_id : option Z) (idx : Z)
    (lines : list str) (added : Z) (errors : list (Z * parse_error))
    (s : world) : Z * list (Z * parse_error) * world :=
  match lines with
  | [] => (added, errors, s)
  | line :: rest =>
      match line, strip line with
      | [], _ | _, [] =>
          add_words_loop user_id group_id (idx + 1) rest added errors s
      | _, _ =>
          match parse_word_line line with
          | inr (eng, uz) =>
              let s := final (add_word user_id (utf8 eng) (utf8 uz)
                                group_id s) in
              add_words_loop user_id group_id (idx + 1) rest (added + 1)
                errors s
          | inl e =>
              add_words_loop user_id group_id (idx + 1) rest added
                (errors ++ [(idx, e)]) s
          end
      end
  end.

Definition add_words_from_lines (user_id : Z) (lines : list str)
    (group_id : option Z) (s : world)
  : Z * list (Z * parse_error) * world :=
  add_words_loop user_id group_id 1 lines 0 [] s.

(** [admin_add_word_to_user]. *)
Definition admin_add_word_to_user (target_user_id : Z)
    (english uzbek : string) (s : world) : outcome Z :=
  add_word target_user_id english uzbek None s.

(** A line is blank when [not line or not line.strip()]. *)
Definition blank (line : str) : bool :=
  match strip line with
  | [] => true
  | _ :: _ => false
  end.

(** A line [parse_word_line] accepts. *)
Definition parses (line : str) : bool :=
  match parse_word_line line with
  | inr _ => true
  | inl _ => false
  end.

(** A class group: user 1 (Telegram id 100) owns group 5, user 2
    (Telegram id 200) is a member of it, and user 3 (Telegram id 300) is
    not.  "cat" is a private word of user 1; "dog" and "bird" are words of
    the group. *)
Definition class_dog : Word.row :=
  Word.mk 2 1 (Some 5) "dog" "it" 0 (Some 0) (Some 20000) (Some 0)
    (Some 20000) (Some 0).
Definition class_bird : Word.row :=
  Word.mk 3 2 (Some 5) "bird" "qush" 0 (Some 0) (Some 20000) (Some 0)
    (Some 20000) (Some 0).

Definition class_db : database :=
  mkdb [User.mk 1 100 "ali" "user" 3; User.mk 2 200 "vali" "user" 0;
        User.mk 3 300 "sami" "user" 0]
       [Group.mk 5 "class" 1] [(1, 5); (2, 5)]
       [demo_cat; class_dog; class_bird] [] 3 3.

Definition class_world : world :=
  mkworld class_db ∅ ∅ ∅ ∅ ∅ ∅ ∅ 1728000000 20000 [] [] [] [].

(** ** The word list, page by page *)

(** SQL [date(created_at) >= date('now', ?)] with the parameter
    [f"-{days} day"]: [created_at] and ['now'] are UTC times, in seconds,
    and [date] is their day.  For a negative [days] the parameter reads
    [--N day], which SQLite does not take for a modifier: the right-hand
    side is NULL and no row passes. *)
Definition created_since (days : Z) (s : world) (w : Word.row) : bool :=
  (0 <? days) && (utc_now s / 86400 - days <=? Word.created_at w / 86400).

(** The WHERE clause [count_user_words] and [fetch_words_page] choose:
    [group_id is not None] selects by group, otherwise by owner, and a
    truthy [days] adds the date test. *)
Definition listed (user_id : Z) (days group_id : option Z) (s : world)
    (w : Word.row) : bool :=
  match group_id with
  | Some g =>
      if truthy days then in_group g w && created_since (x_or_0 days) s w
      else in_group g w
  | None =>
      if truthy days
      then (Word.user_id w =? user_id) && created_since (x_or_0 days) s w
      else Word.user_id w =? user_id
  end.

(** [count_user_words]. *)
Definition count_user_words (user_id : Z) (days group_id : option Z)
    (s : world) : Z * world :=
  let conn := store s in
  let n := length (filter (listed user_id days group_id s) (words conn)) in
  (Z.of_nat n, commit conn s).

(** SQL [LIMIT ? OFFSET ?]: a negative limit is no limit, a negative
    offset is 0. *)
Definition limit_offset {A} (limit offset : Z) (rows : list A) : list A :=
  let rest := drop (Z.to_nat offset) rows in
  if limit <? 0 then rest else take (Z.to_nat limit) rest.

(** The columns [id, english, uzbek, created_at] of a word. *)
Definition word_columns (w : Word.row) : Z * string * string * Z :=
  (Word.id w, Word.english w, Word.uzbek w, Word.created_at w).

(** [fetch_words_page]; [ORDER BY id DESC] is the rowid order, reversed. *)
Definition fetch_words_page (user_id offset limit : Z)
    (days group_id : option Z) (s : world)
  : list (Z * string * string * Z) * world :=
  let offset := if offset <? 0 then 0 else offset in
  let conn := store s in
  let rows :=
    limit_offset limit offset
      (rev (filter (listed user_id days group_id s) (words conn))) in
  (map word_columns rows, commit conn s).

(** What a button of the word list sends back when it is pressed; the
    comment gives the f-string of [callback_data]. *)
Inductive callback :=
| CbWords (tg_id offset : Z) (days group_id : option Z)
    (* w:{tg_id}:{offset}:{days or 'all'}:{group_id or 'none'} *)
| CbFilter (tg_id : Z) (group_id : option Z)
    (* wf:{tg_id}:menu:{group_id or 'none'} *)
| CbDeleteMode (tg_id offset : Z) (days group_id : option Z)
    (* wd:{tg_id}:{offset}:{days or 'all'}:{group_id or 'none'} *)
| CbImportExport (tg_id : Z) (group_id : option Z)
    (* io:{tg_id}:menu:{group_id or 'none'} *)
| CbClearAll (tg_id : Z) (group_id : option Z)
    (* wclear:{tg_id}:{group_id or 'none'} *)
| CbNoop.

Record button := mkbutton {
  text : string;
  callback_data : callback }.

(** [x or 'all'], [x or 'none']: a falsy [x] is written as the word. *)
Definition or_word (x : option Z) : option Z :=
  if truthy x then x else None.

(** [words_page_kb]: the rows of buttons of the inline keyboard. *)
Definition words_page_kb (tg_id offset total : Z) (days group_id : option Z)
  : list (list button) :=
  let prev_off := Z.max (offset - 50) 0 in
  let next_off := if offset + 50 <? total then Some (offset + 50) else None in
  let row :=
    (if 0 <? offset
     then [mkbutton "⬅️ Previous 50"
             (CbWords tg_id prev_off (or_word days) (or_word group_id))]
     else []) ++
    [mkbutton "🗂 Filter" (CbFilter tg_id (or_word group_id));
     mkbutton "🗑 Delete mode"
       (CbDeleteMode tg_id offset (or_word days) (or_word group_id));
     mkbutton "📁 Import/Export" (CbImportExport tg_id (or_word group_id));
     mkbutton "🗑 Clear all" (CbClearAll tg_id (or_word group_id))] ++
    match next_off with
    | Some next_off =>
        [mkbutton "Next 50 ➡️"
           (CbWords tg_id next_off (or_word days) (or_word group_id))]
    | None => []
    end in
  [row] ++
  (if bool_decide (days = Some 7)
   then [[mkbutton "Filter: Last 7 days" CbNoop]]
   else if bool_decide (days = Some 30)
        then [[mkbutton "Filter: Last 30 days" CbNoop]]
        else []).

(** [words_cb], a ["w:"] callback with the offset [action]: the offset of
    the page it shows.  Past the end of the list it falls back to the last
    page. *)
Definition words_cb_offset (action total : Z) : Z :=
  let offset := Z.max action 0 in
  if total <=? offset
  then Z.max (total - (if total mod 50 =? 0 then 50 else total mod 50)) 0
  else offset.
(** * Properties *)

(** ** Reading a word back after an UPDATE *)

Lemma select_word_update (f : Word.row -> Word.row) wid c :
  (forall w, Word.id (f w) = Word.id w) ->
  select_word wid (update_word f wid c) = f <$> select_word wid c.
Proof.
  intros Hid. unfold select_word, update_word. simpl.
  induction (words c) as [|w ws IH]; simpl; [done|].
  destruct (Word.id w =? wid) eqn:E.
  - rewrite Hid, E. done.
  - rewrite E. exact IH.
Qed.

Lemma select_word_insert_stat r wid c :
  select_word wid (insert_stat r c) = select_word wid c.
Proof. done. Qed.

Lemma select_word_add_points d u wid c :
  select_word wid (add_points d u c) = select_word wid c.
Proof. done. Qed.

Lemma truthy_Some z : z <> 0 -> truthy (Some z) = true.
Proof. intros H. simpl. apply negb_true_iff, Z.eqb_neq, H. Qed.

Lemma action_allowed_correct : action_allowed "correct" = true.
Proof. done. Qed.

Lemma action_allowed_wrong : action_allowed "wrong" = true.
Proof. done. Qed.

Lemma record_stat_correct_row u wid b g s w :
  wid <> 0 ->
  select_word wid (store s) = Some w ->
  select_word wid (store (final (record_stat u "correct" (Some wid) b g s)))
  = Some (after_correct (today s) w).
Proof.
  intros Hz Hw. unfold record_stat.
  rewrite action_allowed_correct. simpl negb. cbv iota.
  rewrite (truthy_Some _ Hz), select_word_insert_stat, Hw.
  unfold apply_answer, after_correct.
  rewrite bool_decide_eq_true_2 by done.
  destruct (x_or_0 (Word.correct_count w) + 1 =? 2) eqn:E; simpl;
    destruct (points_delta "correct" b =? 0); simpl;
    rewrite ?select_word_add_points, !select_word_update, ?select_word_insert_stat, Hw;
    done.
Qed.

Lemma record_stat_wrong_row u wid b g s w :
  wid <> 0 ->
  select_word wid (store s) = Some w ->
  select_word wid (store (final (record_stat u "wrong" (Some wid) b g s)))
  = Some (after_wrong (today s) w).
Proof.
  intros Hz Hw. unfold record_stat.
  rewrite action_allowed_wrong. simpl negb. cbv iota.
  rewrite (truthy_Some _ Hz), select_word_insert_stat, Hw.
  unfold apply_answer, after_wrong.
  rewrite bool_decide_eq_false_2 by done.
  rewrite bool_decide_eq_true_2 by done.
  destruct (1 <=? x_or_0 (Word.wrong_count w) + 1) eqn:E; simpl;
    destruct (points_delta "wrong" b =? 0); simpl;
    rewrite ?select_word_add_points, !select_word_update, ?select_word_insert_stat, Hw;
    done.
Qed.

(** ** Review scheduling *)

Lemma days_add_table L :
  days_add 0 = 1 /\ days_add 1 = 3 /\ days_add 2 = 10 /\
  (3 <= L -> days_add L = 30).
Proof.
  repeat split; try reflexivity.
  intros H. unfold days_add.
  destruct (Z.eqb_spec L 0); [lia|].
  destruct (Z.eqb_spec L 1); [lia|].
  destruct (Z.eqb_spec L 2); [lia|]. reflexivity.
Qed.

(** C1.  A word whose streak is 0 keeps its level and its next review date
    after one correct answer (the streak becomes 1); the second correct
    answer in a row moves it from level [L] to [L + 1], sets the next
    review date to the day of that answer plus the offset of [L]
    (1, 3, 10 days for levels 0, 1, 2 and 30 days from level 3 on) and
    resets the streak and the wrong count to 0. *)
Theorem record_stat_two_correct_promote
    (s s2 : world) (u u' wid : Z) (b b' : bool) (g g' : option Z)
    (w : Word.row) :
  wid <> 0 ->
  select_word wid (store s) = Some w ->
  x_or_0 (Word.correct_count w) = 0 ->
  store s2 = store (final (record_stat u "correct" (Some wid) b g s)) ->
  let L := x_or_0 (Word.review_level w) in
  (exists w1,
      select_word wid (store (final (record_stat u "correct" (Some wid) b g s)))
      = Some w1 /\
      Word.correct_count w1 = Some 1 /\
      Word.next_review w1 = Word.next_review w /\
      Word.review_level w1 = Word.review_level w) /\
  (exists w2,
      select_word wid
        (store (final (record_stat u' "correct" (Some wid) b' g' s2)))
      = Some w2 /\
      Word.review_level w2 = Some (L + 1) /\
      Word.next_review w2 = Some (today s2 + days_add L) /\
      Word.correct_count w2 = Some 0 /\
      Word.wrong_count w2 = Some 0) /\
  (days_add 0 = 1 /\ days_add 1 = 3 /\ days_add 2 = 10 /\
   (3 <= L -> days_add L = 30)).
Proof.
  intros Hz Hw Hc Hs2 L.
  pose proof (record_stat_correct_row u wid b g s w Hz Hw) as H1.
  assert (Hw1 : after_correct (today s) w
                = Word.set_streak 1 (today s) 0 w).
  { unfold after_correct. rewrite Hc. reflexivity. }
  rewrite Hw1 in H1.
  split; [|split].
  - eexists. split; [exact H1|]. repeat split.
  - rewrite <- Hs2 in H1.
    pose proof (record_stat_correct_row u' wid b' g' s2 _ Hz H1) as H2.
    eexists. split; [exact H2|]. repeat split.
  - apply days_add_table.
Qed.

Lemma record_stat_two_correct_promote_witness :
  exists w2,
    select_word 1
      (store (final (record_stat 1 "correct" (Some 1) false None
         (final (record_stat 1 "correct" (Some 1) false None demo_world)))))
    = Some w2 /\
    Word.review_level w2 = Some 1 /\
    Word.next_review w2 = Some 20001.
Proof.
  destruct (record_stat_two_correct_promote demo_world
              (final (record_stat 1 "correct" (Some 1) false None demo_world))
              1 1 1 false false None None demo_cat)
    as (_ & (w2 & H2 & Hl & Hn & _) & _).
  - lia.
  - reflexivity.
  - reflexivity.
  - reflexivity.
  - exists w2. split; [exact H2|]. split; [exact Hl | exact Hn].
Defined.

(** C2.  A wrong answer for a stored word whose wrong count is not
    negative sets its level to 0, its next review date to the day of the
    answer, and its streak and wrong count to 0, whatever the level and
    the streak were; the word is due on that day. *)
Theorem record_stat_wrong_resets
    (s : world) (u wid : Z) (b : bool) (g : option Z) (w : Word.row) :
  wid <> 0 ->
  select_word wid (store s) = Some w ->
  0 <= x_or_0 (Word.wrong_count w) ->
  exists w',
    select_word wid (store (final (record_stat u "wrong" (Some wid) b g s)))
    = Some w' /\
    Word.review_level w' = Some 0 /\
    Word.next_review w' = Some (today s) /\
    Word.correct_count w' = Some 0 /\
    Word.wrong_count w' = Some 0 /\
    eligible (today s) w' = true.
Proof.
  intros Hz Hw Hwr.
  pose proof (record_stat_wrong_row u wid b g s w Hz Hw) as H1.
  unfold after_wrong in H1.
  destruct (Z.leb_spec 1 (x_or_0 (Word.wrong_count w) + 1)); [|lia].
  eexists. split; [exact H1|]. repeat split.
  unfold eligible. simpl. apply Z.leb_refl.
Qed.

Lemma record_stat_wrong_resets_witness :
  exists w',
    select_word 1 (store (final (record_stat 1 "wrong" (Some 1) false None
                                   demo_world))) = Some w' /\
    Word.review_level w' = Some 0 /\
    Word.next_review w' = Some 20000.
Proof.
  destruct (record_stat_wrong_resets demo_world 1 1 false None demo_cat)
    as (w' & H & Hl & Hn & _).
  - lia.
  - reflexivity.
  - simpl. lia.
  - exists w'. split; [exact H|]. split; [exact Hl | exact Hn].
Defined.

(** C10.  After an answer event for a stored word whose wrong count is not
    negative, the stored wrong count is 0. *)
Theorem record_stat_wrong_count_zero
    (s : world) (u wid : Z) (action : string) (b : bool) (g : option Z)
    (w : Word.row) :
  action = "correct" \/ action = "wrong" ->
  wid <> 0 ->
  select_word wid (store s) = Some w ->
  0 <= x_or_0 (Word.wrong_count w) ->
  exists w',
    select_word wid (store (final (record_stat u action (Some wid) b g s)))
    = Some w' /\
    Word.wrong_count w' = Some 0.
Proof.
  intros [-> | ->] Hz Hw Hwr.
  - pose proof (record_stat_correct_row u wid b g s w Hz Hw) as H1.
    eexists. split; [exact H1|].
    unfold after_correct.
    destruct (x_or_0 (Word.correct_count w) + 1 =? 2); reflexivity.
  - pose proof (record_stat_wrong_row u wid b g s w Hz Hw) as H1.
    eexists. split; [exact H1|].
    unfold after_wrong.
    destruct (Z.leb_spec 1 (x_or_0 (Word.wrong_count w) + 1)); [|lia].
    reflexivity.
Qed.

Lemma record_stat_wrong_count_zero_witness :
  exists w',
    select_word 2 (store (final (record_stat 1 "correct" (Some 2) true None
                                   demo_world))) = Some w' /\
    Word.wrong_count w' = Some 0.
Proof.
  apply (record_stat_wrong_count_zero demo_world 1 2 "correct" true None
           demo_dog).
  - left. reflexivity.
  - lia.
  - reflexivity.
  - simpl. lia.
Defined.

(** ** Answers for a word that is gone *)

Lemma select_word_None_no_update f wid c :
  select_word wid c = None -> update_word f wid c = c.
Proof.
  unfold select_word, update_word. intros H.
  assert (Hm : map (fun w => if Word.id w =? wid then f w else w) (words c)
               = words c).
  { induction (words c) as [|w ws IH]; simpl in *; [done|].
    destruct (Word.id w =? wid); [discriminate|]. by rewrite IH. }
  rewrite Hm. by destruct c.
Qed.

(** C7.  When no row of [words] has the given id, [record_stat] returns
    normally: the answer event is appended to [stats], the [words] table
    and the word cache are left as they were. *)
Theorem record_stat_missing_word
    (s : world) (u wid : Z) (action : string) (b : bool) (g : option Z) :
  action_allowed action = true ->
  select_word wid (store s) = None ->
  let o := record_stat u action (Some wid) b g s in
  returned o = true /\
  stats (store (final o))
  = stats (store s) ++ [Stat.mk u action (Some wid) (utc_now s) (today s)] /\
  words (store (final o)) = words (store s) /\
  WORDS_CACHE (final o) = WORDS_CACHE s.
Proof.
  intros Ha Hw o. subst o. unfold record_stat. rewrite Ha. simpl negb. cbv iota.
  rewrite select_word_insert_stat, Hw.
  destruct (truthy (Some wid));
    destruct (points_delta action b =? 0); simpl; done.
Qed.

Lemma record_stat_missing_word_witness :
  returned (record_stat 1 "correct" (Some 7) false None demo_world) = true /\
  words (store (final (record_stat 1 "correct" (Some 7) false None demo_world)))
  = [demo_cat; demo_dog].
Proof.
  destruct (record_stat_missing_word demo_world 1 7 "correct" false None)
    as (Hr & _ & Hwds & _).
  - reflexivity.
  - reflexivity.
  - split; [exact Hr | exact Hwds].
Defined.

(** ** Points *)

Lemma words_add_points d u c : words (add_points d u c) = words c.
Proof. done. Qed.

Lemma users_apply_answer action wid w conn s :
  users (fst (apply_answer action wid w conn s)) = users conn.
Proof.
  unfold apply_answer.
  repeat (case_bool_decide || case_match); done.
Qed.

(** C8.  A correct blitz answer is worth strictly more than a correct quiz
    answer, a wrong answer costs the same in both modes, and whenever
    [record_stat] applies a point delta the user's total becomes
    [max (points + delta) 0], which is never negative. *)
Theorem record_stat_points
    (s : world) (u : Z) (action : string) (wid : option Z) (b : bool)
    (g : option Z) :
  action_allowed action = true ->
  points_delta action b <> 0 ->
  let o := record_stat u action wid b g s in
  points_delta "correct" false < points_delta "correct" true /\
  points_delta "wrong" true = points_delta "wrong" false /\
  points_delta "wrong" false = POINTS_FOR_WRONG /\
  users (store (final o))
  = map (fun r => if User.id r =? u
                  then User.set_points
                         (Z.max (User.points r + points_delta action b) 0) r
                  else r) (users (store s)) /\
  (forall r, r ∈ users (store (final o)) -> User.id r = u ->
             0 <= User.points r).
Proof.
  intros Ha Hd o.
  assert (Hu : users (store (final o))
    = map (fun r => if User.id r =? u
                    then User.set_points
                           (Z.max (User.points r + points_delta action b) 0) r
                    else r) (users (store s))).
  { subst o. unfold record_stat. rewrite Ha. simpl negb. cbv iota.
    destruct (Z.eqb_spec (points_delta action b) 0) as [|_]; [contradiction|].
    destruct wid as [z|]; [destruct (truthy (Some z));
      [destruct (select_word z _) as [w|]|]|].
    - match goal with
      | |- context [apply_answer ?a ?z ?w ?c ?s] =>
          pose proof (users_apply_answer a z w c s) as Hx;
          destruct (apply_answer a z w c s) as [c' s']
      end.
      simpl in *. rewrite Hx. done.
    - done.
    - done.
    - done. }
  split; [reflexivity|]. split; [reflexivity|]. split; [reflexivity|].
  split; [exact Hu|].
  intros r Hr Hid. rewrite Hu in Hr.
  apply list_elem_of_fmap in Hr as (r0 & -> & _).
  destruct (User.id r0 =? u) eqn:E.
  - simpl. lia.
  - simpl in Hid. apply Z.eqb_neq in E. contradiction.
Qed.

Lemma record_stat_points_witness :
  users (store (final (record_stat 1 "wrong" (Some 1) false None demo_world)))
  = [User.mk 1 100 "ali" "user" 0].
Proof.
  destruct (record_stat_points demo_world 1 "wrong" (Some 1) false None)
    as (_ & _ & _ & Hu & _).
  - reflexivity.
  - unfold points_delta, POINTS_FOR_WRONG. simpl. lia.
  - exact Hu.
Defined.

(** ** Distractors *)

Lemma permute_Permutation {A} (n : nat) : forall (l : list A) (s : world),
  n = length l -> fst (permute n l s) ≡ₚ l.
Proof.
  induction n as [|n IH]; intros l s Hn.
  - destruct l; [done | discriminate].
  - simpl. unfold draw. simpl.
    set (r := hd 0%nat (rng s)). set (s1 := with_rng (tail (rng s)) s).
    assert (Hlt : (r mod length l < length l)%nat).
    { apply Nat.mod_upper_bound. lia. }
    destruct (lookup_lt_is_Some_2 l _ Hlt) as [x Hx]. rewrite Hx.
    specialize (IH (delete (r mod length l)%nat l) s1).
    destruct (permute n (delete (r mod length l)%nat l) s1) as [rest s2].
    simpl in *. rewrite IH.
    + symmetry. by apply delete_Permutation.
    + rewrite length_delete by eauto. lia.
Qed.

Lemma choice_placeholders s :
  exists p : string, fst (choice placeholders s) = Some p /\ p ∈ placeholders.
Proof.
  unfold choice, draw. simpl fst. set (r := hd 0%nat (rng s)).
  assert (Hlt : (r mod length placeholders < length placeholders)%nat).
  { apply Nat.mod_upper_bound. simpl. lia. }
  destruct (lookup_lt_is_Some_2 placeholders _ Hlt) as [p Hp].
  exists p. split; [exact Hp|]. by eapply list_elem_of_lookup_2.
Qed.

Lemma pad_placeholders_spec n : forall opts s,
  exists ps : list string, fst (pad_placeholders n opts s) = opts ++ ps /\
             length ps = n /\ Forall (fun p : string => p ∈ placeholders) ps.
Proof.
  induction n as [|n IH]; intros opts s.
  - exists []. simpl. by rewrite app_nil_r.
  - change (pad_placeholders (S n) opts s)
      with (let '(p, s1) := choice placeholders s in
            match p with
            | Some p => pad_placeholders n (opts ++ [p]) s1
            | None => (opts, s1)
            end).
    destruct (choice_placeholders s) as (p & Hp & Hin).
    destruct (choice placeholders s) as [o s1]. simpl in Hp. subst o.
    destruct (IH (opts ++ [p]) s1) as (ps & Heq & Hlen & Hall).
    exists (p :: ps). rewrite Heq, <- app_assoc. simpl.
    split; [done|]. split; [lia|]. by constructor.
Qed.

Lemma with_rng_with_rng r r' s : with_rng r (with_rng r' s) = with_rng r s.
Proof. done. Qed.

Lemma permute_frame {A} (n : nat) : forall (l : list A) s,
  exists r, snd (permute n l s) = with_rng r s.
Proof.
  induction n as [|n IH]; intros l s.
  - exists (rng s). by destruct s.
  - simpl. unfold draw. simpl.
    destruct (l !! _) as [x|]; [|by eexists].
    destruct (IH (delete (hd 0%nat (rng s) mod length l)%nat l)
                 (with_rng (tail (rng s)) s)) as [r Hr].
    destruct (permute n _ _) as [rest s2]. simpl in *. subst s2.
    by eexists.
Qed.

Lemma pad_placeholders_frame n : forall opts s,
  exists r, snd (pad_placeholders n opts s) = with_rng r s.
Proof.
  induction n as [|n IH]; intros opts s.
  - exists (rng s). by destruct s.
  - simpl. unfold choice, draw. simpl.
    destruct (placeholders !! _) as [p|]; [|by eexists].
    destruct (IH (opts ++ [p]) (with_rng (tail (rng s)) s)) as [r Hr].
    rewrite Hr. by eexists.
Qed.

Lemma distractor_rows_elem u cid g c (r : Word.row) :
  r ∈ distractor_rows u cid g c -> r ∈ words c /\ Word.id r <> cid.
Proof.
  unfold distractor_rows.
  destruct g as [g|]; [destruct (truthy (Some g))|];
    rewrite list_elem_of_filter; intros [Hp Hin]; split; try done;
    apply andb_prop_elim in Hp as [_ Hp];
    apply negb_prop_elim in Hp; intros Heq; apply Hp;
    apply Is_true_true, Z.eqb_eq, Heq.
Qed.

Lemma get_distractors_spec u cid needed g s :
  0 <= needed ->
  exists (rows : list Word.row) (ps : list string),
    fst (get_distractors u cid needed g s) = map Word.uzbek rows ++ ps /\
    (forall r, r ∈ rows -> r ∈ distractor_rows u cid g (store s)) /\
    length rows
    = Nat.min (Z.to_nat needed) (length (distractor_rows u cid g (store s))) /\
    Forall (fun p : string => p ∈ placeholders) ps /\
    length (map Word.uzbek rows ++ ps) = Z.to_nat needed.
Proof.
  intros Hn. unfold get_distractors, shuffle.
  set (cands := distractor_rows u cid g (store s)).
  pose proof (permute_Permutation (length cands) cands s eq_refl) as Hperm.
  destruct (permute (length cands) cands s) as [ordered s1]. simpl in Hperm.
  rewrite Z.max_l by lia.
  set (rows := take (Z.to_nat needed) ordered).
  assert (Hlen : length rows = Nat.min (Z.to_nat needed) (length cands)).
  { unfold rows. rewrite length_take, (Permutation_length Hperm). done. }
  destruct (pad_placeholders_spec
              (Z.to_nat (needed - Z.of_nat (length (map Word.uzbek rows))))
              (map Word.uzbek rows) (commit (store s) s1))
    as (ps & Heq & Hps & Hall).
  destruct (pad_placeholders _ _ _) as [opts s2]. simpl in Heq. subst opts.
  rewrite length_map in Hps.
  assert (Htot : length (map Word.uzbek rows ++ ps) = Z.to_nat needed).
  { rewrite length_app, length_map. lia. }
  exists rows, ps. simpl. split.
  - apply take_ge. lia.
  - split; [|done].
    intros r Hr. unfold rows in Hr.
    apply elem_of_take in Hr as (i & Hi & _).
    rewrite <- Hperm. by eapply list_elem_of_lookup_2.
Qed.

(** C4 (as stated) fails: a second word of the scope with the same
    translation is offered as a distractor of the first. *)
Lemma get_distractors_repeats_correct_value :
  fst (get_distractors 1 (Word.id synonym_big) 3 None synonyms_world)
  = ["katta"; "nomuvofiq"; "nomuvofiq"] /\
  Word.uzbek synonym_big = "katta" /\
  ~ (forall d : string,
        d ∈ fst (get_distractors 1 (Word.id synonym_big) 3 None
                   synonyms_world) ->
        d <> Word.uzbek synonym_big).
Proof.
  split; [reflexivity|]. split; [reflexivity|].
  intros H. apply (H "katta"); [|reflexivity].
  change (fst (get_distractors 1 (Word.id synonym_big) 3 None synonyms_world))
    with ["katta"; "nomuvofiq"; "nomuvofiq"].
  apply list_elem_of_here.
Qed.

(** C4 (amended).  [get_distractors] with [needed = 3] returns exactly 3
    strings: the translations of up to 3 words of the scope whose id is not
    the asked word's id, followed by placeholder strings when fewer than 3
    such words exist.  With the two words cat/mushuk and dog/it, the
    distractors for cat are "it" and 2 placeholders, whatever is drawn, and
    the correct value is "mushuk". *)
Theorem get_distractors_three (u cid : Z) (g : option Z) (s : world) :
  (exists (rows : list Word.row) (ps : list string),
      fst (get_distractors u cid 3 g s) = map Word.uzbek rows ++ ps /\
      length (fst (get_distractors u cid 3 g s)) = 3%nat /\
      (forall r, r ∈ rows ->
                 r ∈ distractor_rows u cid g (store s) /\
                 r ∈ words (store s) /\ Word.id r <> cid) /\
      length rows
      = Nat.min 3 (length (distractor_rows u cid g (store s))) /\
      Forall (fun p : string => p ∈ placeholders) ps) /\
  (forall tape, exists p1 p2 : string,
      fst (get_distractors 1 (Word.id demo_cat) 3 None
             (with_rng tape demo_world)) = ["it"; p1; p2] /\
      p1 ∈ placeholders /\ p2 ∈ placeholders /\
      Word.uzbek demo_cat = "mushuk").
Proof.
  split.
  - destruct (get_distractors_spec u cid 3 g s) as (rows & ps & H1 & H2 & H3 & H4 & H5);
      [lia|].
    exists rows, ps. rewrite H1. repeat split; try done.
    + by apply H2.
    + by apply (distractor_rows_elem u cid g (store s)), H2.
    + by apply (distractor_rows_elem u cid g (store s)), H2.
  - intros tape.
    destruct (get_distractors_spec 1 1 3 None (with_rng tape demo_world))
      as (rows & ps & H1 & H2 & H3 & H4 & H5); [lia|].
    change (distractor_rows 1 1 None (store (with_rng tape demo_world)))
      with [demo_dog] in *.
    simpl in H3.
    destruct rows as [|r [|r' rows]]; try discriminate.
    assert (r = demo_dog) as ->.
    { specialize (H2 r). rewrite !list_elem_of_singleton in H2.
      by apply H2. }
    simpl in H5. destruct ps as [|p1 [|p2 [|p3 ps]]]; try discriminate.
    exists p1, p2. simpl in H1. change (Word.id demo_cat) with 1.
    rewrite H1. inversion H4 as [|? ? Hp1 H4']; subst.
    inversion H4' as [|? ? Hp2 _]; subst. done.
Qed.

(** ** Calls that leave the store and the sessions alone *)

Lemma quiet_refl s : quiet s s.
Proof. by repeat split. Qed.

Lemma quiet_trans s1 s2 s3 : quiet s1 s2 -> quiet s2 s3 -> quiet s1 s3.
Proof.
  intros (A1 & A2 & A3 & A4 & A5) (B1 & B2 & B3 & B4 & B5).
  repeat split; congruence.
Qed.

Lemma quiet_choice {A} (l : list A) s : quiet s (snd (choice l s)).
Proof. by repeat split. Qed.

Lemma quiet_permute {A} n (l : list A) s : quiet s (snd (permute n l s)).
Proof.
  destruct (permute_frame n l s) as [r ->]. by repeat split.
Qed.

Lemma quiet_pad_placeholders n opts s :
  quiet s (snd (pad_placeholders n opts s)).
Proof.
  destruct (pad_placeholders_frame n opts s) as [r ->]. by repeat split.
Qed.

(** ** Picking a word *)

Lemma choice_elem {A} (l : list A) s :
  l <> [] -> exists x, fst (choice l s) = Some x /\ x ∈ l.
Proof.
  intros Hl. unfold choice, draw. simpl.
  assert (Hlt : (hd 0%nat (rng s) mod length l < length l)%nat).
  { apply Nat.mod_upper_bound. destruct l; [done | simpl; lia]. }
  destruct (lookup_lt_is_Some_2 l _ Hlt) as [x Hx].
  exists x. split; [exact Hx|]. by eapply list_elem_of_lookup_2.
Qed.

Lemma two_ids_differ (ws : list Word.row) (last : Z) :
  NoDup (map Word.id ws) -> (2 <= length ws)%nat ->
  exists w, w ∈ ws /\ Word.id w <> last.
Proof.
  intros Hnd Hlen.
  destruct ws as [|a [|b ws]]; simpl in Hlen; try lia.
  simpl in Hnd. apply NoDup_cons in Hnd as [Hab _].
  destruct (decide (Word.id a = last)) as [Ha|Ha].
  - exists b. split; [set_solver|]. intros Hb. apply Hab.
    rewrite Ha, <- Hb. set_solver.
  - exists a. split; [set_solver | done].
Qed.

Lemma pick_user_word_eligible_list u g s :
  exists s', pick_user_word u g s
  = (match eligible_list u g s with
     | [] => (None, s')
     | _ :: _ =>
         if truthy (LAST_ASKED s !! (u, g))
            && (1 <? length (eligible_list u g s))%nat
         then
           let candidates :=
             filter (fun w => negb (bool_decide
                             (Some (Word.id w) = LAST_ASKED s !! (u, g))))
                    (eligible_list u g s) in
           match candidates with
           | [] => choice (eligible_list u g s) s'
           | _ :: _ => choice candidates s'
           end
         else choice (eligible_list u g s) s'
     end) /\
  quiet s s'.
Proof.
  unfold pick_user_word, eligible_list.
  destruct (WORDS_CACHE s !! (u, g)) as [ws|].
  - exists s. split; [|done]. by destruct ws.
  - exists (commit (store s)
              (with_WORDS_CACHE
                 (<[(u, g) := load_eligible u g s]> (WORDS_CACHE s)) s)).
    split; [|done]. by destruct (load_eligible u g s).
Qed.

Lemma pick_user_word_avoids_last u g s last :
  NoDup (map Word.id (eligible_list u g s)) ->
  (2 <= length (eligible_list u g s))%nat ->
  LAST_ASKED s !! (u, g) = Some last ->
  last <> 0 ->
  exists w, fst (pick_user_word u g s) = Some w /\
            w ∈ eligible_list u g s /\ Word.id w <> last.
Proof.
  intros Hnd Hlen Hlast Hz.
  destruct (pick_user_word_eligible_list u g s) as (s' & -> & _).
  destruct (two_ids_differ _ last Hnd Hlen) as (w0 & Hin0 & Hne0).
  rewrite Hlast, (truthy_Some _ Hz).
  destruct (eligible_list u g s) as [|a ws] eqn:El; [simpl in Hlen; lia|].
  assert (Hl : (1 <? length (a :: ws))%nat = true) by (apply Nat.ltb_lt; lia).
  rewrite Hl. simpl andb. cbv iota zeta.
  assert (Hc : w0 ∈ filter (fun w => negb (bool_decide (Some (Word.id w) = Some last)))
                      (a :: ws)).
  { apply list_elem_of_filter. split; [|done].
    apply negb_prop_intro. intros Hb. apply bool_decide_unpack in Hb.
    congruence. }
  destruct (filter _ (a :: ws)) as [|c cs] eqn:Ef; [by apply elem_of_nil in Hc|].
  destruct (choice_elem (c :: cs) s') as (x & Hx & Hxin); [done|].
  exists x. split; [done|].
  rewrite <- Ef in Hxin. apply list_elem_of_filter in Hxin as [Hp Hxin].
  split; [done|]. intros Heq. apply negb_prop_elim in Hp. apply Hp.
  apply bool_decide_pack. congruence.
Qed.

Lemma quiet_pick_user_word u g s : quiet s (snd (pick_user_word u g s)).
Proof.
  destruct (pick_user_word_eligible_list u g s) as (s' & -> & Hq).
  destruct (eligible_list u g s) as [|a ws]; [done|].
  destruct (truthy _ && _); [|by eapply quiet_trans, quiet_choice].
  cbv zeta. destruct (filter _ _); by eapply quiet_trans, quiet_choice.
Qed.

Lemma choice_Some_elem {A} (l : list A) s x :
  fst (choice l s) = Some x -> x ∈ l.
Proof. unfold choice, draw. simpl. apply list_elem_of_lookup_2. Qed.

Lemma pick_user_word_elem u g s w :
  fst (pick_user_word u g s) = Some w -> w ∈ eligible_list u g s.
Proof.
  destruct (pick_user_word_eligible_list u g s) as (s' & -> & _).
  destruct (eligible_list u g s) as [|a ws]; [done|].
  destruct (truthy _ && _); [|apply choice_Some_elem].
  cbv zeta. destruct (filter _ (a :: ws)) as [|c cs] eqn:Ef;
    [apply choice_Some_elem|].
  intros Hx%choice_Some_elem. rewrite <- Ef in Hx.
  by apply list_elem_of_filter in Hx as [_ Hx].
Qed.

Lemma quiet_commit_same s s1 : quiet s s1 -> quiet s (commit (store s) s1).
Proof. intros (A1 & A2 & A3 & A4 & A5). by repeat split. Qed.

Lemma quiet_get_distractors u cid n g s :
  quiet s (snd (get_distractors u cid n g s)).
Proof.
  unfold get_distractors, shuffle.
  pose proof (quiet_permute
                (length (distractor_rows u cid g (store s)))
                (distractor_rows u cid g (store s)) s) as H1.
  destruct (permute _ _ s) as [ordered s1]. simpl in H1.
  apply quiet_commit_same in H1.
  match goal with
  | |- context [pad_placeholders ?k ?o ?w] =>
      pose proof (quiet_pad_placeholders k o w) as H2;
      destruct (pad_placeholders k o w) as [opts s2]
  end.
  simpl in *. by eapply quiet_trans.
Qed.

Lemma send_quiz_poll_asked chat u tg g qn s s1 :
  send_quiz_poll chat u tg g qn s = Returned true s1 ->
  exists w, fst (pick_user_word u g s) = Some w /\
            LAST_ASKED s1 !! (u, g) = Some (Word.id w).
Proof.
  unfold send_quiz_poll.
  destruct (pick_user_word u g s) as [[w|] s0]; [|discriminate].
  match goal with
  | |- context [get_distractors ?a ?b ?c ?d ?e] =>
      pose proof (quiet_get_distractors a b c d e) as (_ & H1 & _);
      destruct (get_distractors a b c d e) as [ds s2]
  end.
  pose proof (quiet_permute (length (Word.uzbek w :: ds))
                (Word.uzbek w :: ds) s2) as (_ & H2 & _).
  unfold shuffle.
  destruct (permute _ _ s2) as [opts s3].
  simpl in H1, H2.
  destruct (index _ opts) as [ci|]; [|discriminate].
  unfold send_poll, get_ui_lang. simpl.
  destruct (hd PollMissing (net s3)) as [pid mid|]; [|discriminate].
  intros Heq. exists w. split; [done|].
  assert (Hl : LAST_ASKED s1 = LAST_ASKED s3).
  { destruct (QUIZ_SESSIONS s3 !! tg); inversion Heq; done. }
  rewrite Hl, H2, H1. apply lookup_insert_eq.
Qed.

(** C5 (as stated) fails: the cache still holds the list loaded on day
    20000, when only "cat" was due; on day 20001 both words of the scope
    are due, and the word asked last is picked again. *)
Lemma pick_user_word_repeats_with_stale_cache :
  let s1 := final (send_quiz_poll 100 1 100 None 1 later_world) in
  let s2 := with_clock 1728086400 20001 s1 in
  LAST_ASKED s2 !! (1, None) = Some (Word.id demo_cat) /\
  filter (fun w => (Word.user_id w =? 1) && eligible (today s2) w)
         (words (store s2)) = [demo_cat; later_dog] /\
  fst (pick_user_word 1 None s2) = Some demo_cat.
Proof. vm_compute. repeat split. Qed.

(** C5 (amended).  After [send_quiz_poll] has asked a word for a scope,
    and as long as no other word has been asked for that scope, a call of
    [pick_user_word] for the scope whose list (the cached list of the key,
    or the rows loaded when the key is absent) holds at least 2 words
    returns a word of that list other than the one asked last. *)
Theorem pick_user_word_not_last_asked
    (chat u tg : Z) (g : option Z) (qn : Z) (s s1 s2 : world) :
  send_quiz_poll chat u tg g qn s = Returned true s1 ->
  LAST_ASKED s2 !! (u, g) = LAST_ASKED s1 !! (u, g) ->
  (forall w, w ∈ eligible_list u g s -> Word.id w <> 0) ->
  NoDup (map Word.id (eligible_list u g s2)) ->
  (2 <= length (eligible_list u g s2))%nat ->
  exists asked w,
    fst (pick_user_word u g s) = Some asked /\
    fst (pick_user_word u g s2) = Some w /\
    w ∈ eligible_list u g s2 /\
    Word.id w <> Word.id asked.
Proof.
  intros Hsend Hsame Hids Hnd Hlen.
  destruct (send_quiz_poll_asked _ _ _ _ _ _ _ Hsend) as (asked & Hpick & Hlast).
  assert (Hz : Word.id asked <> 0) by (by apply Hids, pick_user_word_elem).
  rewrite <- Hsame in Hlast.
  destruct (pick_user_word_avoids_last u g s2 _ Hnd Hlen Hlast Hz)
    as (w & Hw & Hin & Hne).
  by exists asked, w.
Qed.

Lemma pick_user_word_not_last_asked_witness :
  exists asked w,
    fst (pick_user_word 1 None demo_world_online) = Some asked /\
    fst (pick_user_word 1 None
           (final (send_quiz_poll 100 1 100 None 1 demo_world_online)))
    = Some w /\
    w ∈ eligible_list 1 None
          (final (send_quiz_poll 100 1 100 None 1 demo_world_online)) /\
    Word.id w <> Word.id asked.
Proof.
  apply (pick_user_word_not_last_asked 100 1 100 None 1 demo_world_online
           (final (send_quiz_poll 100 1 100 None 1 demo_world_online))
           (final (send_quiz_poll 100 1 100 None 1 demo_world_online))).
  - vm_compute. reflexivity.
  - reflexivity.
  - intros w Hw.
    change (eligible_list 1 None demo_world_online)
      with [demo_cat; demo_dog] in Hw.
    apply list_elem_of_In in Hw. simpl in Hw.
    destruct Hw as [<- | [<- | []]]; simpl; lia.
  - change (NoDup [1; 2]). apply (bool_decide_unpack _). reflexivity.
  - vm_compute. lia.
Defined.

(** ** Sending the next poll leaves the store and the blitz sessions alone *)

Ltac quiet_step :=
  match goal with
  | |- context [pick_user_word ?u ?g ?s] =>
      let H := fresh "Hq" in
      pose proof (quiet_pick_user_word u g s) as H;
      destruct (pick_user_word u g s) as [[?|] ?]; simpl in H
  | |- context [get_distractors ?a ?b ?c ?d ?e] =>
      let H := fresh "Hq" in
      pose proof (quiet_get_distractors a b c d e) as H;
      destruct (get_distractors a b c d e) as [? ?]; simpl in H
  | |- context [permute ?n ?l ?s] =>
      let H := fresh "Hq" in
      pose proof (quiet_permute n l s) as H;
      destruct (permute n l s) as [? ?]; simpl in H
  end.

Lemma send_blitz_poll_app_frame chat u tg g s :
  store (final (send_blitz_poll_app chat u tg g s)) = store s /\
  BLITZ_SESSIONS (final (send_blitz_poll_app chat u tg g s))
  = BLITZ_SESSIONS s.
Proof.
  unfold send_blitz_poll_app, shuffle.
  quiet_step.
  - quiet_step. quiet_step.
    destruct Hq as (A1 & _ & A3 & _), Hq0 as (B1 & _ & B3 & _),
             Hq1 as (C1 & _ & C3 & _).
    simpl in *.
    destruct (index _ _); simpl; [|split; congruence].
    destruct (hd PollMissing _); simpl; [|split; congruence].
    rewrite C3, B3, A3.
    destruct (BLITZ_SESSIONS s !! tg); simpl; split; congruence.
  - destruct Hq as (A1 & _ & A3 & _). simpl. split; congruence.
Qed.

Lemma send_quiz_poll_frame chat u tg g qn s :
  store (final (send_quiz_poll chat u tg g qn s)) = store s /\
  BLITZ_SESSIONS (final (send_quiz_poll chat u tg g qn s))
  = BLITZ_SESSIONS s.
Proof.
  unfold send_quiz_poll, shuffle.
  quiet_step.
  - quiet_step. quiet_step.
    destruct Hq as (A1 & _ & A3 & _), Hq0 as (B1 & _ & B3 & _),
             Hq1 as (C1 & _ & C3 & _).
    simpl in *.
    destruct (index _ _); simpl; [|split; congruence].
    destruct (hd PollMissing _); simpl; [|split; congruence].
    destruct (QUIZ_SESSIONS _ !! tg); simpl; split; congruence.
  - destruct Hq as (A1 & _ & A3 & _). simpl. split; congruence.
Qed.

Lemma record_stat_returns u action wid b g s :
  action_allowed action = true ->
  record_stat u action wid b g s
  = Returned tt (final (record_stat u action wid b g s)).
Proof.
  intros Ha. unfold record_stat. rewrite Ha. simpl negb. cbv iota.
  destruct wid as [z|]; [destruct (truthy (Some z));
    [destruct (select_word z _)|]|]; try done.
  by destruct (apply_answer _ _ _ _ _).
Qed.

Lemma record_stat_BLITZ_SESSIONS u action wid b g s :
  BLITZ_SESSIONS (final (record_stat u action wid b g s)) = BLITZ_SESSIONS s.
Proof.
  unfold record_stat. destruct (negb (action_allowed action)); [done|].
  destruct wid as [z|]; [destruct (truthy (Some z));
    [destruct (select_word z _)|]|]; try done.
  unfold apply_answer.
  repeat (case_bool_decide || case_match); simplify_eq; done.
Qed.

Lemma count_answer_store c b uid s : store (count_answer c b uid s) = store s.
Proof. unfold count_answer. repeat case_match; done. Qed.

Lemma count_answer_absent c b uid tg s :
  BLITZ_SESSIONS s !! tg = None ->
  BLITZ_SESSIONS (count_answer c b uid s) !! tg = None.
Proof.
  intros Hn. unfold count_answer.
  repeat case_match; try done; simpl;
    (destruct (decide (uid = tg)) as [->|Hne];
      [congruence | by rewrite lookup_insert_ne]).
Qed.

Lemma on_poll_answer_store ans info chosen rest s :
  ACTIVE_POLLS s !! poll_id ans = Some info ->
  user ans = tg_user_id info ->
  option_ids ans = chosen :: rest ->
  store (final (on_poll_answer ans s))
  = store (final (scored_as info chosen s)).
Proof.
  intros Hinfo Huser Hopt. unfold on_poll_answer, scored_as.
  rewrite Hinfo, Huser, Z.eqb_refl, Hopt. simpl negb. cbv iota.
  set (sc := if bool_decide (chosen = correct_idx info) then _ else _).
  assert (Hsc : sc = Returned tt (final sc)).
  { unfold sc. destruct (bool_decide _); by apply record_stat_returns. }
  rewrite Hsc.
  set (s1 := send_message _ (count_answer _ _ _ (final sc))).
  assert (H1 : store s1 = store (final sc)).
  { unfold s1. simpl. apply count_answer_store. }
  destruct (is_blitz info).
  - pose proof (send_blitz_poll_app_frame (chat_id info) (db_user_id info)
                  (tg_user_id info) (group_id info) s1) as [F _].
    destruct (send_blitz_poll_app _ _ _ _ s1); simpl in *; congruence.
  - pose proof (send_quiz_poll_frame (chat_id info) (db_user_id info)
                  (tg_user_id info) (group_id info) (question_num info + 1)
                  s1) as [F _].
    destruct (send_quiz_poll _ _ _ _ _ s1); simpl in *; congruence.
Qed.

Lemma on_poll_answer_absent ans tg s :
  BLITZ_SESSIONS s !! tg = None ->
  BLITZ_SESSIONS (final (on_poll_answer ans s)) !! tg = None.
Proof.
  intros Hn. unfold on_poll_answer.
  destruct (ACTIVE_POLLS s !! poll_id ans) as [info|]; [|done].
  destruct (negb _); [done|].
  destruct (option_ids ans) as [|chosen rest]; [done|].
  set (sc := if bool_decide (chosen = correct_idx info) then _ else _).
  assert (Hsc : sc = Returned tt (final sc)).
  { unfold sc. destruct (bool_decide _); by apply record_stat_returns. }
  assert (Hb : BLITZ_SESSIONS (final sc) = BLITZ_SESSIONS s).
  { unfold sc. destruct (bool_decide _); apply record_stat_BLITZ_SESSIONS. }
  rewrite Hsc.
  set (s1 := send_message _ (count_answer _ _ _ (final sc))).
  assert (H1 : BLITZ_SESSIONS s1 !! tg = None).
  { unfold s1. simpl. apply count_answer_absent. by rewrite Hb. }
  destruct (is_blitz info).
  - pose proof (send_blitz_poll_app_frame (chat_id info) (db_user_id info)
                  (tg_user_id info) (group_id info) s1) as [_ F].
    destruct (send_blitz_poll_app _ _ _ _ s1); simpl in *; congruence.
  - pose proof (send_quiz_poll_frame (chat_id info) (db_user_id info)
                  (tg_user_id info) (group_id info) (question_num info + 1)
                  s1) as [_ F].
    destruct (send_quiz_poll _ _ _ _ _ s1); simpl in *; congruence.
Qed.

Lemma run_answers_absent answers tg : forall s,
  BLITZ_SESSIONS s !! tg = None ->
  BLITZ_SESSIONS (run_answers answers s) !! tg = None.
Proof.
  induction answers as [|ans answers IH]; intros s Hn; [done|].
  simpl. apply IH. by apply on_poll_answer_absent.
Qed.

Lemma blitz_time_up_job_removes tg s :
  BLITZ_SESSIONS (final (blitz_time_up_job tg s)) !! tg = None.
Proof.
  unfold blitz_time_up_job.
  destruct (BLITZ_SESSIONS s !! tg) as [sess|] eqn:E; [|done].
  unfold get_or_create_user.
  destruct (find _ _); simpl; apply lookup_delete_eq.
Qed.

(** C3 (as stated) fails: the timer has removed the session, the poll it
    left open is answered, and the answer is scored (an event is appended
    and the user gets the blitz points). *)
Lemma answer_after_blitz_time_up_is_scored :
  let late := final (on_poll_answer (mkanswer "poll-1" 100 [0%nat])
                       blitz_over_world) in
  BLITZ_SESSIONS blitz_over_world !! 100 = None /\
  stats (store blitz_over_world) = [] /\
  map User.points (users (store blitz_over_world)) = [3] /\
  stats (store late) = [Stat.mk 1 "correct" (Some 1) 1728000000 20000] /\
  map User.points (users (store late)) = [10].
Proof. vm_compute. repeat split. Qed.

(** C3 (amended).  Once the timer has finalized a user's blitz session,
    no later answer touches blitz counters of that user: the session stays
    absent from [BLITZ_SESSIONS] whatever answers follow.  An answer to a
    poll that is still open is nevertheless handed to [record_stat], and
    the store is left as [record_stat] leaves it. *)
Theorem answers_after_blitz_time_up (s : world) (tg : Z) :
  let s' := final (blitz_time_up_job tg s) in
  (forall answers, BLITZ_SESSIONS (run_answers answers s') !! tg = None) /\
  (forall ans info chosen rest,
      ACTIVE_POLLS s' !! poll_id ans = Some info ->
      user ans = tg_user_id info ->
      option_ids ans = chosen :: rest ->
      store (final (on_poll_answer ans s'))
      = store (final (scored_as info chosen s'))).
Proof.
  intros s'. split.
  - intros answers. apply run_answers_absent, blitz_time_up_job_removes.
  - intros ans info chosen rest. apply on_poll_answer_store.
Qed.

Lemma answers_after_blitz_time_up_witness :
  BLITZ_SESSIONS
    (run_answers [mkanswer "poll-1" 100 [0%nat]] blitz_over_world) !! 100
  = None /\
  store (final (on_poll_answer (mkanswer "poll-1" 100 [0%nat])
                  blitz_over_world))
  = store (final (scored_as
                    (mkpoll 100 501 100 1 1 0%nat None 1 true) 0%nat
                    blitz_over_world)).
Proof.
  destruct (answers_after_blitz_time_up blitz_started_world 100) as [H1 H2].
  split.
  - apply (H1 [mkanswer "poll-1" 100 [0%nat]]).
  - apply (H2 (mkanswer "poll-1" 100 [0%nat])
              (mkpoll 100 501 100 1 1 0%nat None 1 true) 0%nat []).
    + vm_compute. reflexivity.
    + reflexivity.
    + reflexivity.
Defined.

(** ** Cache invalidation *)

Lemma add_word_invalidates u e z g s :
  invalidated_after_commit s (final (add_word u e z g s)).
Proof. split; [done|]. exists []. simpl. by rewrite <- app_assoc. Qed.

Lemma delete_word_if_owner_invalidates wid u s s' :
  delete_word_if_owner wid u s = Returned true s' ->
  invalidated_after_commit s s'.
Proof.
  unfold delete_word_if_owner. destruct (find _ _); [|discriminate].
  intros [= <-]. split; [done|]. exists []. simpl. by rewrite <- app_assoc.
Qed.

Lemma admin_delete_word_invalidates wid s s' :
  admin_delete_word wid s = Returned true s' ->
  invalidated_after_commit s s'.
Proof.
  unfold admin_delete_word. destruct (select_word _ _); [|discriminate].
  intros [= <-]. split; [done|]. exists []. simpl. by rewrite <- app_assoc.
Qed.

Lemma delete_all_words_invalidates u g s s' :
  delete_all_words u g s = Returned true s' ->
  invalidated_after_commit s s'.
Proof.
  unfold delete_all_words, is_group_owner. destruct g as [g|].
  - destruct (find _ _) as [r|]; simpl.
    + destruct (Group.owner_id r =? u); simpl; [|discriminate].
      intros [= <-]. split; [done|]. exists [EvCommit]. simpl.
      by rewrite <- !app_assoc.
    + discriminate.
  - intros [= <-]. split; [done|]. exists []. simpl. by rewrite <- app_assoc.
Qed.

Lemma is_admin_trace A tg s :
  exists pre, trace (snd (is_admin A tg s)) = trace s ++ pre /\
              store (snd (is_admin A tg s)) = store s.
Proof.
  unfold is_admin, db_role_is_admin, get_user_row_by_tg.
  destruct (bool_decide _).
  - exists []. by rewrite app_nil_r.
  - exists [EvCommit]. by destruct (find _ _).
Qed.

Lemma delete_group_invalidates A gid req s s' :
  delete_group A gid req s = Returned true s' ->
  invalidated_after_commit s s'.
Proof.
  unfold delete_group. destruct (find _ _) as [row|]; [|discriminate].
  destruct (Group.owner_id row =? req).
  - intros [= <-]. split; [done|]. exists []. simpl. by rewrite <- app_assoc.
  - destruct (is_admin_trace A req s) as (pre & Ht & _).
    destruct (is_admin A req s) as [[|] s1]; simpl in *; [|discriminate].
    intros [= <-]. split; [done|]. exists pre. simpl.
    rewrite Ht. by rewrite <- !app_assoc.
Qed.

Lemma delete_group_word_invalidates A wid gid req s s' :
  delete_group_word A wid gid req s = Returned true s' ->
  invalidated_after_commit s s'.
Proof.
  unfold delete_group_word, is_group_owner.
  set (s0 := commit (store s) s).
  destruct (match find _ _ with Some r => _ | None => false end).
  - intros [= <-]. split; [done|]. exists [EvCommit]. simpl.
    by rewrite <- !app_assoc.
  - destruct (is_admin_trace A req s0) as (pre & Ht & _).
    destruct (is_admin A req s0) as [[|] s1]; simpl in *; [|discriminate].
    intros [= <-]. split; [done|]. exists (EvCommit :: pre). simpl.
    rewrite Ht. simpl. by rewrite <- !app_assoc.
Qed.

(** A promotion or a demotion by [record_stat] clears the cache while the
    transaction is still open. *)
Lemma record_stat_demotion_order u wid b g s w :
  wid <> 0 ->
  select_word wid (store s) = Some w ->
  0 <= x_or_0 (Word.wrong_count w) ->
  invalidated_before_commit s
    (final (record_stat u "wrong" (Some wid) b g s)).
Proof.
  intros Hz Hw Hwr. unfold record_stat.
  rewrite action_allowed_wrong. simpl negb. cbv iota.
  rewrite (truthy_Some _ Hz), select_word_insert_stat, Hw.
  unfold apply_answer.
  rewrite bool_decide_eq_false_2 by done.
  rewrite bool_decide_eq_true_2 by done.
  destruct (Z.leb_spec 1 (x_or_0 (Word.wrong_count w) + 1)); [|lia].
  split; [done|]. simpl. by rewrite <- app_assoc.
Qed.

Lemma record_stat_promotion_order u wid b g s w :
  wid <> 0 ->
  select_word wid (store s) = Some w ->
  x_or_0 (Word.correct_count w) = 1 ->
  invalidated_before_commit s
    (final (record_stat u "correct" (Some wid) b g s)).
Proof.
  intros Hz Hw Hc. unfold record_stat.
  rewrite action_allowed_correct. simpl negb. cbv iota.
  rewrite (truthy_Some _ Hz), select_word_insert_stat, Hw.
  unfold apply_answer.
  rewrite bool_decide_eq_true_2 by done.
  rewrite Hc. simpl.
  split; [done|]. simpl. by rewrite <- app_assoc.
Qed.

(** C6.  The design rule holds for [add_word] (and, by the lemmas above,
    for every deletion), but not for [record_stat]: for a wrong answer on
    the stored word 1 the cache is cleared first and the transaction is
    committed afterwards. *)
Theorem record_stat_invalidates_before_commit :
  trace (final (add_word 1 "bird" "qush" None demo_world))
  = [EvCommit; EvInvalidate] /\
  trace (final (record_stat 1 "wrong" (Some 1) false None demo_world))
  = [EvInvalidate; EvCommit] /\
  ~ invalidated_after_commit demo_world
      (final (record_stat 1 "wrong" (Some 1) false None demo_world)).
Proof.
  split; [reflexivity|]. split; [reflexivity|].
  intros [_ [pre Hpre]].
  change (trace (final (record_stat 1 "wrong" (Some 1) false None demo_world)))
    with [EvInvalidate; EvCommit] in Hpre.
  simpl in Hpre.
  destruct pre as [|e [|e' pre]]; try discriminate.
  simpl in Hpre. injection Hpre as _ _ Hp. by destruct pre.
Qed.

(** ** The trigonometry quiz *)

Lemma find_map_update {A} (key : A -> Z) (k : Z) (f : A -> A) (l : list A) :
  (forall x, key (f x) = key x) ->
  find (fun r => key r =? k) (map (fun r => if key r =? k then f r else r) l)
  = f <$> find (fun r => key r =? k) l.
Proof.
  intros Hk. induction l as [|x l IH]; simpl; [done|].
  destruct (key x =? k) eqn:E.
  - by rewrite Hk, E.
  - by rewrite E.
Qed.




Lemma process_answers_counts answers : forall st qd st',
  Math.math_quiz_session st = Some qd ->
  Math.process_answers answers st = Some st' ->
  exists qd',
    Math.math_quiz_session st' = Some qd' /\
    Math.session_id qd' = Math.session_id qd /\
    Math.questions qd' = Math.questions qd /\
    Math.current_index qd' = (Math.current_index qd + length answers)%nat /\
    Math.correct_count qd'
    = Math.correct_count qd
      + Math.right_answers
          (drop (Math.current_index qd) (Math.questions qd)) answers /\
    Math.wrong_count qd'
    = Math.wrong_count qd + Z.of_nat (length answers)
      - Math.right_answers
          (drop (Math.current_index qd) (Math.questions qd)) answers /\
    Math.math_quiz_sessions (Math.db st')
    = Math.math_quiz_sessions (Math.db st) /\
    Math.math_user_stats (Math.db st') = Math.math_user_stats (Math.db st).
Proof.
  induction answers as [|a rest IH]; intros st qd st' Hqd Hrun.
  - simpl in Hrun. injection Hrun as <-. exists qd.
    rewrite Nat.add_0_r. repeat split; try done.
    + destruct (drop _ _); simpl; lia.
    + destruct (drop _ _); simpl; lia.
  - simpl in Hrun.
    destruct (Math.process_answer a st) as [st1|] eqn:Hstep; [|discriminate].
    unfold Math.process_answer in Hstep. rewrite Hqd in Hstep.
    destruct (Math.questions qd !! Math.current_index qd) as [q|] eqn:Hq;
      [|discriminate].
    destruct (Math.check_answer q a) as [b|] eqn:Hb; [|discriminate].
    destruct (Math.options q !! a) as [ua|]; [|discriminate].
    injection Hstep as <-.
    match type of Hrun with
    | Math.process_answers _ ?s1 = _ =>
        destruct (IH s1 _ st' eq_refl Hrun)
          as (qd' & H1 & H2 & H3 & H4 & H5 & H6 & H7 & H8)
    end.
    simpl in *. exists qd'.
    rewrite (drop_S _ _ _ Hq). simpl. rewrite Hb.
    repeat split; try done; try lia.
    + rewrite H5. destruct b; simpl; lia.
    + rewrite H6. destruct b; simpl; lia.
Qed.






(** ** The counters of stored words *)

Lemma Forall_update_word (P : Word.row -> Prop) f wid c :
  Forall P (words c) ->
  (forall w, Word.id w = wid -> P (f w)) ->
  Forall P (words (update_word f wid c)).
Proof.
  intros Hall Hf. unfold update_word. simpl.
  induction Hall as [|w ws Hw _ IH]; simpl; constructor; [|exact IH].
  destruct (Z.eqb_spec (Word.id w) wid); [by apply Hf | done].
Qed.

Lemma Forall_update_word_twice (P : Word.row -> Prop) f g wid c :
  Forall P (words c) ->
  (forall w, Word.id (f w) = Word.id w) ->
  (forall w, P (g (f w))) ->
  Forall P (words (update_word g wid (update_word f wid c))).
Proof.
  intros Hall Hid Hgf. unfold update_word. simpl.
  induction Hall as [|w ws Hw _ IH]; simpl; constructor; [|exact IH].
  destruct (Z.eqb_spec (Word.id w) wid) as [E|E].
  - rewrite Hid. destruct (Z.eqb_spec (Word.id w) wid); [apply Hgf | done].
  - by destruct (Z.eqb_spec (Word.id w) wid).
Qed.

Lemma counts_ok_apply_answer action wid w conn s :
  counts_ok conn ->
  select_word wid conn = Some w ->
  counts_ok (fst (apply_answer action wid w conn s)).
Proof.
  intros Hok Hsel.
  assert (Hw : x_or_0 (Word.wrong_count w) = 0 /\
               (x_or_0 (Word.correct_count w) = 0 \/
                x_or_0 (Word.correct_count w) = 1)).
  { unfold select_word in Hsel. apply find_some in Hsel as [Hin _].
    unfold counts_ok in Hok. rewrite Forall_forall in Hok.
    apply Hok. by apply list_elem_of_In. }
  destruct Hw as [Hwr Hcc].
  unfold apply_answer, counts_ok.
  case_bool_decide.
  - destruct (Z.eqb_spec (x_or_0 (Word.correct_count w) + 1) 2); cbn [fst].
    + apply Forall_update_word_twice; [done | done |].
      intros w'. simpl. auto.
    + apply Forall_update_word; [done|].
      intros w' _. simpl. split; [done|]. lia.
  - case_bool_decide; [|done].
    rewrite Hwr. cbn [fst Z.add Z.leb Z.compare Pos.compare Pos.compare_cont].
    cbv iota.
    apply Forall_update_word_twice; [done | done |].
    intros w'. simpl. auto.
Qed.

Lemma counts_ok_insert_stat r c : counts_ok c -> counts_ok (insert_stat r c).
Proof. done. Qed.

Lemma counts_ok_add_points d u c : counts_ok c -> counts_ok (add_points d u c).
Proof. done. Qed.

(** [record_stat] and [add_word] keep the counters in range, and so do the
    deletions: the hypotheses on the counters made above hold in every
    store these calls produce from an empty table. *)
Lemma record_stat_counts_ok u action wid b g s :
  counts_ok (store s) ->
  counts_ok (store (final (record_stat u action wid b g s))).
Proof.
  intros Hok. unfold record_stat.
  destruct (negb (action_allowed action)); [done|].
  set (c1 := insert_stat _ (store s)).
  assert (H1 : counts_ok c1) by done.
  destruct wid as [z|]; [destruct (truthy (Some z));
    [destruct (select_word z c1) as [w|] eqn:Hsel|]|].
  - pose proof (counts_ok_apply_answer action z w c1 s H1 Hsel) as H2.
    destruct (apply_answer action z w c1 s) as [c2 s2]. simpl in *.
    by destruct (points_delta action b =? 0).
  - simpl. by destruct (points_delta action b =? 0).
  - simpl. by destruct (points_delta action b =? 0).
  - simpl. by destruct (points_delta action b =? 0).
Qed.

Lemma add_word_counts_ok u e z g s :
  counts_ok (store s) -> counts_ok (store (final (add_word u e z g s))).
Proof.
  intros Hok. unfold add_word, counts_ok. simpl.
  apply Forall_app. split; [done|].
  constructor; [|constructor]. simpl. auto.
Qed.

Lemma delete_words_counts_ok p c :
  counts_ok c -> counts_ok (delete_words p c).
Proof.
  unfold counts_ok, delete_words. simpl. rewrite !Forall_forall.
  intros Hok w Hin. apply Hok. by apply list_elem_of_filter in Hin as [_ Hin].
Qed.

(** ** The quiz of [word.py]

    Its session counts the correct answers and numbers the questions; it
    has no target count, no wrong counter and no summary. *)

Example word_quiz_counts_correct_answers :
  let s0 := final (send_quiz_poll 100 1 100 None 1 demo_world_six_polls) in
  let s5 := run_answers
    [mkanswer "p1" 100 [0%nat]; mkanswer "p2" 100 [0%nat];
     mkanswer "p3" 100 [1%nat]; mkanswer "p4" 100 [0%nat];
     mkanswer "p5" 100 [2%nat]] s0 in
  QUIZ_SESSIONS s5 !! 100 = Some (mkquiz 6 1728000000 3) /\
  map User.points (users (store s5)) = [10].
Proof. vm_compute. split; reflexivity. Qed.

(** ** Adding and deleting words *)

Lemma next_rowid_above seq ids : forall i, i ∈ ids -> i < next_rowid seq ids.
Proof.
  unfold next_rowid. induction ids as [|j ids IH]; intros i Hi.
  - by apply elem_of_nil in Hi.
  - simpl. apply elem_of_cons in Hi as [->|Hi]; [lia|].
    specialize (IH i Hi). lia.
Qed.

Lemma next_rowid_above_seq seq ids : seq < next_rowid seq ids.
Proof.
  unfold next_rowid. induction ids as [|j ids IH]; simpl; lia.
Qed.

Lemma find_none_app_last {A} (p : A -> bool) (l : list A) (x : A) :
  (forall y, y ∈ l -> p y = false) -> p x = true ->
  find p (l ++ [x]) = Some x.
Proof.
  intros Hl Hx. induction l as [|y l IH]; simpl.
  - by rewrite Hx.
  - rewrite (Hl y) by apply list_elem_of_here.
    apply IH. intros y' Hy'. apply Hl. by apply list_elem_of_further.
Qed.

Lemma find_app_other {A} (p : A -> bool) (l : list A) (x : A) :
  p x = false -> find p (l ++ [x]) = find p l.
Proof.
  intros Hx. induction l as [|y l IH]; simpl.
  - by rewrite Hx.
  - by destruct (p y).
Qed.

(** X1.  [add_word] returns an id larger than every id of the table, and
    the row stored under that id carries the given owner, group and texts
    at level 0 with streak 0, due on the day it is added; every other id
    reads as before, and one "added" event is appended to [stats]. *)
Theorem add_word_lookup (u : Z) (e z : string) (g : option Z) (s : world) :
  exists id s',
    add_word u e z g s = Returned id s' /\
    (forall w, w ∈ words (store s) -> Word.id w < id) /\
    select_word id (store s')
    = Some (Word.mk id u g e z (utc_now s) (Some 0) (Some (today s))
              (Some 0) (Some (today s)) (Some 0)) /\
    (forall wid, wid <> id ->
                 select_word wid (store s') = select_word wid (store s)) /\
    stats (store s')
    = stats (store s) ++ [Stat.mk u "added" (Some id) (utc_now s) (today s)].
Proof.
  set (id := next_rowid (seq_words (store s)) (map Word.id (words (store s)))).
  assert (Hlt : forall w, w ∈ words (store s) -> Word.id w < id).
  { intros w Hw. apply next_rowid_above. by apply list_elem_of_fmap_2. }
  eexists id, _. split; [reflexivity|]. split; [exact Hlt|].
  unfold select_word. simpl. fold id. repeat split.
  - apply find_none_app_last; [|simpl; apply Z.eqb_refl].
    intros y Hy. apply Z.eqb_neq. specialize (Hlt y Hy). lia.
  - intros wid Hne. apply find_app_other. simpl. apply Z.eqb_neq. lia.
Qed.

(** X2.  A word that has just been added is in the list [pick_user_word]
    chooses from, for its owner's personal scope and, when it was added to a
    group, for that group's scope. *)
Theorem add_word_then_eligible (u : Z) (e z : string) (g : option Z)
    (s : world) :
  let s' := final (add_word u e z g s) in
  exists w,
    select_word (Word.id w) (store s') = Some w /\
    Word.english w = e /\ Word.uzbek w = z /\
    w ∈ eligible_list u None s' /\
    (forall u' g0, g = Some g0 -> g0 <> 0 ->
                   w ∈ eligible_list u' (Some g0) s').
Proof.
  intros s'.
  destruct (add_word_lookup u e z g s) as (id & s1 & Hret & _ & Hsel & _ & _).
  assert (s' = s1) as -> by (subst s'; by rewrite Hret).
  exists (Word.mk id u g e z (utc_now s) (Some 0) (Some (today s))
            (Some 0) (Some (today s)) (Some 0)).
  split; [exact Hsel|]. split; [done|]. split; [done|].
  assert (Hin : Word.mk id u g e z (utc_now s) (Some 0) (Some (today s))
                  (Some 0) (Some (today s)) (Some 0) ∈ words (store s1)).
  { apply find_some in Hsel as [Hin _]. by apply list_elem_of_In. }
  assert (Hc : WORDS_CACHE s1 = ∅) by (by injection Hret as _ <-).
  assert (Ht : today s1 = today s) by (by injection Hret as _ <-).
  split.
  - unfold eligible_list, load_eligible. rewrite Hc, lookup_empty.
    apply list_elem_of_filter. split; [|done].
    unfold eligible. simpl. rewrite Ht, Z.eqb_refl, Z.leb_refl. done.
  - intros u' g0 -> Hg0.
    unfold eligible_list, load_eligible. rewrite Hc, lookup_empty.
    rewrite (truthy_Some _ Hg0).
    apply list_elem_of_filter. split; [|done].
    unfold eligible, in_group. simpl. rewrite Ht, Z.eqb_refl, Z.leb_refl. done.
Qed.

Lemma elem_of_delete_words p c (w : Word.row) :
  w ∈ words (delete_words p c) <-> w ∈ words c /\ p w = false.
Proof.
  unfold delete_words. simpl. rewrite list_elem_of_filter.
  split.
  - intros [Hp Hin]. split; [done|]. by destruct (p w).
  - intros [Hin Hp]. split; [|done]. by rewrite Hp.
Qed.

Lemma select_word_delete wid c :
  select_word wid (delete_words (fun w => Word.id w =? wid) c) = None.
Proof.
  unfold select_word. destruct (find _ _) as [w|] eqn:E; [|done].
  apply find_some in E as [Hin Hid].
  apply list_elem_of_In, elem_of_delete_words in Hin as [_ Hp]. congruence.
Qed.

(** X3.  [delete_word_if_owner] refuses (returns False and leaves the
    store and the word cache as they are) when no row with the given id
    belongs to the user; when the user owns the word it returns True, the
    id is no longer found, and exactly the rows with another id remain. *)
Theorem delete_word_if_owner_effect (wid u : Z) (s : world) :
  let o := delete_word_if_owner wid u s in
  ((forall w, w ∈ words (store s) -> Word.id w = wid -> Word.user_id w <> u) ->
   o = Returned false (final o) /\
   store (final o) = store s /\
   WORDS_CACHE (final o) = WORDS_CACHE s) /\
  (forall w, w ∈ words (store s) -> Word.id w = wid -> Word.user_id w = u ->
   o = Returned true (final o) /\
   select_word wid (store (final o)) = None /\
   WORDS_CACHE (final o) = ∅ /\
   (forall w', w' ∈ words (store (final o)) <->
               w' ∈ words (store s) /\ Word.id w' <> wid)).
Proof.
  intros o. subst o. unfold delete_word_if_owner.
  destruct (find _ (words (store s))) as [w0|] eqn:E.
  - apply find_some in E as [Hin0 Hp0].
    apply andb_prop in Hp0 as [Hid0%Z.eqb_eq Hu0%Z.eqb_eq].
    split.
    + intros Hno. exfalso. by apply (Hno w0); [apply list_elem_of_In| |].
    + intros w Hin Hid Hu. split; [done|].
      split; [exact (select_word_delete wid (store s))|]. split; [done|].
      intros w'.
      rewrite <- Z.eqb_neq.
      exact (elem_of_delete_words (fun w => Word.id w =? wid) (store s) w').
  - split; [done|].
    intros w Hin Hid Hu. exfalso.
    apply list_elem_of_In in Hin.
    pose proof (find_none _ _ E w Hin) as Hp. simpl in Hp.
    rewrite Hid, Hu, !Z.eqb_refl in Hp. discriminate.
Qed.

Lemma delete_word_if_owner_effect_witness :
  delete_word_if_owner 2 1 demo_world
  = Returned true (final (delete_word_if_owner 2 1 demo_world)) /\
  words (store (final (delete_word_if_owner 2 1 demo_world))) = [demo_cat] /\
  delete_word_if_owner 2 7 demo_world
  = Returned false (final (delete_word_if_owner 2 7 demo_world)).
Proof.
  destruct (delete_word_if_owner_effect 2 1 demo_world) as [_ H1].
  destruct (delete_word_if_owner_effect 2 7 demo_world) as [H2 _].
  destruct (H1 demo_dog) as (R1 & _).
  - vm_compute. apply list_elem_of_further, list_elem_of_here.
  - reflexivity.
  - reflexivity.
  - destruct H2 as (R2 & _).
    + intros w Hw _. vm_compute in Hw.
      apply list_elem_of_In in Hw. simpl in Hw.
      destruct Hw as [<- | [<- | []]]; simpl; lia.
    + split; [exact R1|]. split; [reflexivity | exact R2].
Defined.

(** X4.  [delete_all_words] without a group deletes exactly the rows owned
    by the user, whatever group they are in.  With a group it is refused
    (False, store untouched) unless the user owns the group, and then it
    deletes exactly the rows of that group, whoever owns them. *)
Theorem delete_all_words_effect (u : Z) (s : world) :
  (let o := delete_all_words u None s in
   o = Returned true (final o) /\
   WORDS_CACHE (final o) = ∅ /\
   forall w, w ∈ words (store (final o)) <->
             w ∈ words (store s) /\ Word.user_id w <> u) /\
  (forall g,
      let o := delete_all_words u (Some g) s in
      (fst (is_group_owner u g s) = false ->
       o = Returned false (final o) /\ store (final o) = store s /\
       WORDS_CACHE (final o) = WORDS_CACHE s) /\
      (fst (is_group_owner u g s) = true ->
       o = Returned true (final o) /\
       WORDS_CACHE (final o) = ∅ /\
       forall w, w ∈ words (store (final o)) <->
                 w ∈ words (store s) /\ Word.group_id w <> Some g)).
Proof.
  split.
  - split; [done|]. split; [done|].
    intros w. rewrite <- Z.eqb_neq.
    exact (elem_of_delete_words (fun w => Word.user_id w =? u) (store s) w).
  - intros g o. subst o. unfold delete_all_words.
    destruct (is_group_owner u g s) as [[|] s1] eqn:E; simpl.
    + split; [done|]. intros _. split; [done|]. split; [done|].
      intros w.
      etrans; [exact (elem_of_delete_words (in_group g) (store s) w)|].
      unfold in_group.
      destruct (Word.group_id w) as [g'|].
      * rewrite Z.eqb_neq. split; intros [? ?]; split; congruence.
      * split; intros [? ?]; split; done.
    + split; [|done]. intros _. split; [done|].
      unfold is_group_owner in E. by injection E as _ <-.
Qed.

Lemma delete_all_words_effect_witness :
  words (store (final (delete_all_words 1 None demo_world))) = [] /\
  delete_all_words 1 (Some 5) demo_world
  = Returned false (final (delete_all_words 1 (Some 5) demo_world)).
Proof.
  destruct (delete_all_words_effect 1 demo_world) as [_ H].
  destruct (H 5) as [H1 _].
  split; [reflexivity|].
  apply H1. reflexivity.
Defined.

(** ** A word after a promotion or a demotion *)

Lemma days_add_pos L : 0 < days_add L.
Proof. unfold days_add. repeat case_match; lia. Qed.

Lemma elem_of_update_word f wid c (w' : Word.row) :
  (forall w, Word.id (f w) = Word.id w) ->
  w' ∈ words (update_word f wid c) -> Word.id w' = wid ->
  exists w, w ∈ words c /\ w' = f w.
Proof.
  intros Hid Hin Hw'. unfold update_word in Hin. simpl in Hin.
  apply list_elem_of_fmap in Hin as (w & -> & Hin).
  destruct (Z.eqb_spec (Word.id w) wid) as [E|E]; [by exists w|].
  congruence.
Qed.

Lemma record_stat_today u action wid b g s :
  today (final (record_stat u action wid b g s)) = today s.
Proof.
  unfold record_stat. destruct (negb (action_allowed action)); [done|].
  destruct wid as [z|]; [destruct (truthy (Some z));
    [destruct (select_word z _)|]|]; try done.
  unfold apply_answer.
  repeat (case_bool_decide || case_match); simplify_eq; done.
Qed.

(** X5.  A word that has just been promoted is not asked again on that
    day: right after the second correct answer in a row, no call of
    [pick_user_word], for any user and scope, returns a row with the
    word's id. *)
Theorem promoted_word_not_picked
    (s : world) (u wid : Z) (b : bool) (g : option Z) (w : Word.row)
    (u' : Z) (g' : option Z) (w' : Word.row) :
  wid <> 0 ->
  select_word wid (store s) = Some w ->
  x_or_0 (Word.correct_count w) = 1 ->
  fst (pick_user_word u' g'
         (final (record_stat u "correct" (Some wid) b g s))) = Some w' ->
  Word.id w' <> wid.
Proof.
  intros Hz Hw Hc Hpick Hid.
  destruct (record_stat_promotion_order u wid b g s w Hz Hw Hc) as [Hcache _].
  apply pick_user_word_elem in Hpick.
  unfold eligible_list in Hpick. rewrite Hcache, lookup_empty in Hpick.
  assert (Hdue : w' ∈ words (store (final (record_stat u "correct" (Some wid)
                                              b g s))) /\
                 eligible (today s) w' = true).
  { unfold load_eligible in Hpick.
    rewrite record_stat_today in Hpick.
    destruct g' as [g0|]; [destruct (truthy (Some g0))|];
      apply list_elem_of_filter in Hpick as [Hp Hin];
      apply andb_prop_elim in Hp as [_ Hp]; split; try done;
      by apply Is_true_true. }
  destruct Hdue as [Hin Hdue].
  revert Hin. unfold record_stat.
  rewrite action_allowed_correct. simpl negb. cbv iota.
  rewrite (truthy_Some _ Hz), select_word_insert_stat, Hw.
  unfold apply_answer. rewrite bool_decide_eq_true_2 by done.
  rewrite Hc. cbn [Z.add Z.eqb Pos.add Pos.succ Pos.eqb].
  cbv iota. cbn [final store commit with_store emit with_trace].
  destruct (points_delta "correct" b =? 0); rewrite ?words_add_points;
    intros Hin;
    apply elem_of_update_word in Hin as (w1 & _ & ->); try done;
    unfold eligible in Hdue; simpl in Hdue;
    pose proof (days_add_pos (x_or_0 (Word.review_level w)));
    apply Z.leb_le in Hdue; lia.
Qed.

Lemma promoted_word_not_picked_witness : Word.id demo_dog <> 1.
Proof.
  apply (promoted_word_not_picked
           (final (record_stat 1 "correct" (Some 1) false None demo_world))
           1 1 false None
           (Word.set_streak 1 20000 0 demo_cat) 1 None demo_dog).
  - lia.
  - reflexivity.
  - reflexivity.
  - vm_compute. reflexivity.
Defined.

(** X6.  A word that has just been answered wrongly stays in the pool: the
    cache has been dropped, and the list [pick_user_word] loads for the
    owner's personal scope (and for the word's group) contains the row. *)
Theorem demoted_word_eligible
    (s : world) (u wid : Z) (b : bool) (g : option Z) (w : Word.row) :
  wid <> 0 ->
  select_word wid (store s) = Some w ->
  0 <= x_or_0 (Word.wrong_count w) ->
  let s' := final (record_stat u "wrong" (Some wid) b g s) in
  exists w',
    select_word wid (store s') = Some w' /\
    w' ∈ eligible_list (Word.user_id w) None s' /\
    (forall u' g0, Word.group_id w = Some g0 -> g0 <> 0 ->
                   w' ∈ eligible_list u' (Some g0) s').
Proof.
  intros Hz Hw Hwr s'.
  destruct (record_stat_demotion_order u wid b g s w Hz Hw Hwr) as [Hcache Htr].
  pose proof (record_stat_wrong_row u wid b g s w Hz Hw) as Hrow.
  fold s' in Hcache, Hrow.
  assert (Ht : today s' = today s) by apply record_stat_today.
  unfold after_wrong in Hrow.
  destruct (Z.leb_spec 1 (x_or_0 (Word.wrong_count w) + 1)); [|lia].
  eexists. split; [exact Hrow|].
  apply find_some in Hrow as [Hin _]. apply list_elem_of_In in Hin.
  split.
  - unfold eligible_list, load_eligible. rewrite Hcache, lookup_empty.
    apply list_elem_of_filter. split; [|done].
    unfold eligible. simpl. rewrite Ht, Z.eqb_refl, Z.leb_refl. done.
  - intros u' g0 Hg Hg0.
    unfold eligible_list, load_eligible. rewrite Hcache, lookup_empty.
    rewrite (truthy_Some _ Hg0).
    apply list_elem_of_filter. split; [|done].
    unfold eligible, in_group. simpl. rewrite Hg, Ht, Z.eqb_refl, Z.leb_refl.
    done.
Qed.

Lemma demoted_word_eligible_witness :
  exists w',
    select_word 1 (store (final (record_stat 1 "wrong" (Some 1) false None
                                   demo_world))) = Some w' /\
    w' ∈ eligible_list 1 None
           (final (record_stat 1 "wrong" (Some 1) false None demo_world)).
Proof.
  destruct (demoted_word_eligible demo_world 1 1 false None demo_cat)
    as (w' & H1 & H2 & _).
  - lia.
  - reflexivity.
  - simpl. lia.
  - exists w'. split; [exact H1 | exact H2].
Defined.

(** ** What [pick_user_word] returns and caches *)

Lemma choice_WORDS_CACHE {A} (l : list A) s :
  WORDS_CACHE (snd (choice l s)) = WORDS_CACHE s.
Proof. done. Qed.

(** X7.  [pick_user_word] returns None exactly when the list of the scope
    (cached, or loaded on a miss) is empty, and otherwise a row of that
    list; afterwards the cache holds that list under the scope's key and
    every other key as before, and the store, the last-asked markers, the
    sessions and the open polls are untouched. *)
Theorem pick_user_word_result (u : Z) (g : option Z) (s : world) :
  (fst (pick_user_word u g s) = None <-> eligible_list u g s = []) /\
  (forall w, fst (pick_user_word u g s) = Some w ->
             w ∈ eligible_list u g s) /\
  WORDS_CACHE (snd (pick_user_word u g s)) !! (u, g)
  = Some (eligible_list u g s) /\
  (forall k, k <> (u, g) ->
             WORDS_CACHE (snd (pick_user_word u g s)) !! k
             = WORDS_CACHE s !! k) /\
  quiet s (snd (pick_user_word u g s)).
Proof.
  split; [|split; [apply pick_user_word_elem|split; [|split;
    [|apply quiet_pick_user_word]]]].
  - destruct (pick_user_word_eligible_list u g s) as (s' & -> & _).
    destruct (eligible_list u g s) as [|a ws] eqn:El; [done|].
    split; [|done]. intros Hnone. exfalso.
    destruct (truthy _ && _).
    + cbv zeta in Hnone.
      destruct (filter _ (a :: ws)) as [|c cs].
      * destruct (choice_elem (a :: ws) s') as (x & Hx & _); [done|].
        congruence.
      * destruct (choice_elem (c :: cs) s') as (x & Hx & _); [done|].
        congruence.
    + destruct (choice_elem (a :: ws) s') as (x & Hx & _); [done|].
      congruence.
  - unfold pick_user_word, eligible_list.
    destruct (WORDS_CACHE s !! (u, g)) as [ws|] eqn:E.
    + destruct ws as [|a ws]; [done|].
      destruct (truthy _ && _); [|by rewrite choice_WORDS_CACHE].
      destruct (filter _ _); by rewrite choice_WORDS_CACHE.
    + destruct (load_eligible u g s) as [|a ws] eqn:El; simpl;
        [apply lookup_insert_eq|].
      destruct (truthy _ && _);
        [destruct (filter _ _)|]; rewrite choice_WORDS_CACHE; simpl;
        apply lookup_insert_eq.
  - intros k Hk. unfold pick_user_word.
    destruct (WORDS_CACHE s !! (u, g)) as [ws|] eqn:E.
    + destruct ws as [|a ws]; [done|].
      destruct (truthy _ && _); [|by rewrite choice_WORDS_CACHE].
      destruct (filter _ _); by rewrite choice_WORDS_CACHE.
    + destruct (load_eligible u g s) as [|a ws] eqn:El; simpl;
        [by apply lookup_insert_ne|].
      destruct (truthy _ && _);
        [destruct (filter _ _)|]; rewrite choice_WORDS_CACHE; simpl;
        by apply lookup_insert_ne.
Qed.

(** X8.  On a cache miss [pick_user_word] only returns a stored row that is
    due (no review date, or one not after today) and belongs to the scope:
    to the group when a group id other than 0 is given, to the user
    otherwise. *)
Theorem pick_user_word_fresh_scope
    (u : Z) (g : option Z) (s : world) (w : Word.row) :
  WORDS_CACHE s !! (u, g) = None ->
  fst (pick_user_word u g s) = Some w ->
  w ∈ words (store s) /\
  eligible (today s) w = true /\
  match g with
  | Some g0 => if g0 =? 0 then Word.user_id w = u
               else Word.group_id w = Some g0
  | None => Word.user_id w = u
  end.
Proof.
  intros Hmiss Hpick. apply pick_user_word_elem in Hpick.
  unfold eligible_list in Hpick. rewrite Hmiss in Hpick.
  unfold load_eligible in Hpick.
  assert (Huser : w ∈ filter (fun w => (Word.user_id w =? u)
                                       && eligible (today s) w)
                         (words (store s)) ->
                  w ∈ words (store s) /\ eligible (today s) w = true /\
                  Word.user_id w = u).
  { intros [Hp Hin]%list_elem_of_filter.
    apply andb_prop_elim in Hp as [Hu He].
    split; [done|]. split; [by apply Is_true_true|].
    by apply Z.eqb_eq, Is_true_true. }
  destruct g as [g0|]; [|by apply Huser].
  unfold truthy in Hpick. destruct (Z.eqb_spec g0 0) as [->|Hne]; simpl in Hpick.
  - by apply Huser.
  - apply list_elem_of_filter in Hpick as [Hp Hin].
    apply andb_prop_elim in Hp as [Hg He].
    split; [done|]. split; [by apply Is_true_true|].
    unfold in_group in Hg. destruct (Word.group_id w) as [g'|]; [|done].
    apply Is_true_true, Z.eqb_eq in Hg. by subst.
Qed.

Lemma pick_user_word_fresh_scope_witness :
  demo_cat ∈ words (store demo_world) /\
  eligible (today demo_world) demo_cat = true /\
  Word.user_id demo_cat = 1.
Proof.
  apply (pick_user_word_fresh_scope 1 None demo_world demo_cat).
  - reflexivity.
  - vm_compute. reflexivity.
Defined.

(** ** The poll [send_quiz_poll] sends *)

Lemma pick_user_word_outbox u g s :
  outbox (snd (pick_user_word u g s)) = outbox s /\
  net (snd (pick_user_word u g s)) = net s.
Proof.
  unfold pick_user_word.
  destruct (WORDS_CACHE s !! (u, g)) as [ws|].
  - destruct ws as [|a ws]; [done|].
    destruct (truthy _ && _); [destruct (filter _ _)|]; done.
  - destruct (load_eligible u g s) as [|a ws]; [done|].
    destruct (truthy _ && _); [destruct (filter _ _)|]; done.
Qed.

Lemma permute_outbox {A} n (l : list A) s :
  outbox (snd (permute n l s)) = outbox s /\
  net (snd (permute n l s)) = net s.
Proof. by destruct (permute_frame n l s) as [r ->]. Qed.

Lemma get_distractors_outbox u cid n g s :
  outbox (snd (get_distractors u cid n g s)) = outbox s /\
  net (snd (get_distractors u cid n g s)) = net s.
Proof.
  unfold get_distractors, shuffle.
  pose proof (permute_outbox
                (length (distractor_rows u cid g (store s)))
                (distractor_rows u cid g (store s)) s) as [H1 H1'].
  destruct (permute _ _ s) as [ordered s1]. simpl in H1, H1'.
  match goal with
  | |- context [pad_placeholders ?k ?o ?w] =>
      destruct (pad_placeholders_frame k o w) as [r Hr];
      destruct (pad_placeholders k o w) as [opts s2]
  end.
  simpl in *. subst s2. simpl. done.
Qed.

Lemma index_lookup x options i :
  index x options = Some i -> options !! i = Some x.
Proof.
  unfold index. intros H.
  destruct (list_find _ options) as [[j y]|] eqn:E; [|discriminate].
  simpl in H. injection H as ->.
  apply list_find_Some in E as (Hl & -> & _). done.
Qed.

Lemma get_distractors_length_three u cid g s :
  length (fst (get_distractors u cid 3 g s)) = 3%nat.
Proof.
  destruct (get_distractors_spec u cid 3 g s) as (rows & ps & -> & _ & _ & _ & H);
    [lia | done].
Qed.

(** X9.  When [send_quiz_poll] returns True, it has sent one poll for the
    word [pick_user_word] chose: the poll has 4 options, the option at its
    correct_option_id is the translation of that word, and the poll is
    registered in [ACTIVE_POLLS] with the same word id and index; the user
    then has a quiz session. *)
Theorem send_quiz_poll_sent
    (chat u tg : Z) (g : option Z) (qn : Z) (s s1 : world) :
  send_quiz_poll chat u tg g qn s = Returned true s1 ->
  exists w options ci pid mid,
    fst (pick_user_word u g s) = Some w /\
    outbox s1
    = outbox s ++ [SendPoll chat (Some qn) (Word.english w) options ci] /\
    length options = 4%nat /\
    options !! ci = Some (Word.uzbek w) /\
    ACTIVE_POLLS s1 !! pid
    = Some (mkpoll chat mid tg u (Word.id w) ci g qn false) /\
    is_Some (QUIZ_SESSIONS s1 !! tg).
Proof.
  unfold send_quiz_poll.
  pose proof (pick_user_word_outbox u g s) as [O1 N1].
  destruct (pick_user_word u g s) as [[w|] s0]; [|discriminate].
  simpl in O1, N1.
  set (sa := with_LAST_ASKED _ s0).
  pose proof (get_distractors_outbox u (Word.id w) 3 g sa) as [O2 N2].
  pose proof (get_distractors_length_three u (Word.id w) g sa) as L2.
  destruct (get_distractors u (Word.id w) 3 g sa) as [ds s2].
  simpl in O2, N2, L2. unfold shuffle.
  pose proof (permute_outbox (length (Word.uzbek w :: ds))
                (Word.uzbek w :: ds) s2) as [O3 N3].
  pose proof (permute_Permutation (length (Word.uzbek w :: ds))
                (Word.uzbek w :: ds) s2 eq_refl) as P3.
  destruct (permute _ _ s2) as [opts s3]. simpl in O3, N3, P3.
  destruct (index _ opts) as [ci|] eqn:Hci; [|discriminate].
  unfold send_poll, get_ui_lang. simpl.
  destruct (hd PollMissing (net s3)) as [pid mid|]; [|discriminate].
  intros Heq. exists w, opts, ci, pid, mid.
  split; [done|].
  assert (Hout : outbox s3 = outbox s) by (rewrite O3, O2; exact O1).
  assert (Hlen : length opts = 4%nat).
  { rewrite (Permutation_length P3). simpl. by rewrite L2. }
  destruct (QUIZ_SESSIONS s3 !! tg) as [sess|] eqn:Hq;
    injection Heq as <-; simpl; rewrite Hout;
    (split; [done|]); (split; [done|]);
    (split; [by apply index_lookup|]);
    (split; [apply lookup_insert_eq|]);
    rewrite lookup_insert_eq; by eexists.
Qed.

Lemma send_quiz_poll_sent_witness :
  exists w options ci,
    fst (pick_user_word 1 None demo_world_online) = Some w /\
    length options = 4%nat /\
    options !! ci = Some (Word.uzbek w).
Proof.
  destruct (send_quiz_poll_sent 100 1 100 None 1 demo_world_online
              (final (send_quiz_poll 100 1 100 None 1 demo_world_online)))
    as (w & options & ci & _ & _ & H1 & _ & H2 & H3 & _).
  - vm_compute. reflexivity.
  - by exists w, options, ci.
Defined.

(** X10.  When the scope has no word to ask, [send_quiz_poll] returns
    False: it tells the user so, removes the user's quiz session, and
    registers no poll and no last-asked marker. *)
Theorem send_quiz_poll_no_words
    (chat u tg : Z) (g : option Z) (qn : Z) (s : world) :
  eligible_list u g s = [] ->
  exists s1,
    send_quiz_poll chat u tg g qn s = Returned false s1 /\
    outbox s1 = outbox s ++ [QuizNoWords chat] /\
    QUIZ_SESSIONS s1 !! tg = None /\
    ACTIVE_POLLS s1 = ACTIVE_POLLS s /\
    LAST_ASKED s1 = LAST_ASKED s /\
    store s1 = store s.
Proof.
  intros Hempty.
  destruct (pick_user_word_result u g s) as (Hnone & _ & _ & _ & Hq).
  apply Hnone in Hempty.
  pose proof (pick_user_word_outbox u g s) as [O1 _].
  unfold send_quiz_poll.
  destruct (pick_user_word u g s) as [[w|] s0]; [discriminate|].
  simpl in *. destruct Hq as (Q1 & Q2 & _ & Q4 & Q5).
  eexists. split; [reflexivity|]. simpl.
  rewrite O1. split; [done|]. split; [apply lookup_delete_eq|]. done.
Qed.

Lemma send_quiz_poll_no_words_witness :
  exists s1,
    send_quiz_poll 100 9 100 None 1 demo_world = Returned false s1 /\
    outbox s1 = [QuizNoWords 100].
Proof.
  destruct (send_quiz_poll_no_words 100 9 100 None 1 demo_world)
    as (s1 & H1 & H2 & _).
  - reflexivity.
  - exists s1. split; [exact H1 | exact H2].
Defined.

(** ** Poll answers *)

(** X11.  [on_poll_answer] does nothing at all (no event, no points, no
    message) for an answer to a poll it does not know, for an answer given
    by someone other than the user the poll was sent to, and for a
    retracted vote (no option chosen). *)
Theorem on_poll_answer_ignored (ans : poll_answer) (s : world) :
  ACTIVE_POLLS s !! poll_id ans = None \/
  (exists info, ACTIVE_POLLS s !! poll_id ans = Some info /\
                user ans <> tg_user_id info) \/
  option_ids ans = [] ->
  on_poll_answer ans s = Returned tt s.
Proof.
  unfold on_poll_answer.
  intros [Hn | [(info & Hi & Hu) | He]].
  - by rewrite Hn.
  - rewrite Hi. by destruct (Z.eqb_spec (user ans) (tg_user_id info)).
  - destruct (ACTIVE_POLLS s !! poll_id ans) as [info|]; [|done].
    destruct (negb _); [done|]. by rewrite He.
Qed.

Lemma on_poll_answer_ignored_witness :
  on_poll_answer (mkanswer "poll-1" 999 [0%nat]) blitz_started_world
  = Returned tt blitz_started_world.
Proof.
  apply on_poll_answer_ignored. right. left.
  exists (mkpoll 100 501 100 1 1 0%nat None 1 true).
  split; [vm_compute; reflexivity | simpl; lia].
Defined.

(** X12.  An answer is scored at most once: when [on_poll_answer] returns,
    the answered poll is no longer open, and handling the same answer again
    changes nothing. *)
Theorem on_poll_answer_once (ans : poll_answer) (s s1 : world) :
  on_poll_answer ans s = Returned tt s1 ->
  (forall info, ACTIVE_POLLS s !! poll_id ans = Some info ->
                user ans = tg_user_id info -> option_ids ans <> [] ->
                ACTIVE_POLLS s1 !! poll_id ans = None) /\
  on_poll_answer ans s1 = Returned tt s1.
Proof.
  intros Hret.
  assert (Hcases :
    (s1 = s /\ (ACTIVE_POLLS s !! poll_id ans = None \/
                (exists info, ACTIVE_POLLS s !! poll_id ans = Some info /\
                              user ans <> tg_user_id info) \/
                option_ids ans = [])) \/
    ((exists info, ACTIVE_POLLS s !! poll_id ans = Some info /\
                   user ans = tg_user_id info /\ option_ids ans <> []) /\
     ACTIVE_POLLS s1 !! poll_id ans = None)).
  { revert Hret. unfold on_poll_answer.
    destruct (ACTIVE_POLLS s !! poll_id ans) as [info|] eqn:Hi;
      [|intros [= <-]; left; auto].
    destruct (Z.eqb_spec (user ans) (tg_user_id info)) as [Hu|Hu]; simpl;
      [|intros [= <-]; left; split; [done|]; right; left; by exists info].
    destruct (option_ids ans) as [|chosen rest] eqn:Ho;
      [intros [= <-]; left; auto|].
    intros Hret. right. split; [by exists info|].
    destruct (if bool_decide _ then _ else _) as [[] sr|]; [|discriminate].
    destruct (if is_blitz info then _ else _) as [[] sn|]; [|discriminate].
    injection Hret as <-. simpl. apply lookup_delete_eq. }
  destruct Hcases as [[-> Hign] | [(info & Hi & Hu & Ho) Hclosed]].
  - split; [|by apply on_poll_answer_ignored].
    intros info Hi Hu Ho. destruct Hign as [Hn | [(i' & Hi' & Hu') | He]];
      congruence.
  - split; [done|]. apply on_poll_answer_ignored. by left.
Qed.

Lemma on_poll_answer_once_witness :
  on_poll_answer (mkanswer "poll-1" 100 [0%nat])
    (final (on_poll_answer (mkanswer "poll-1" 100 [0%nat])
              blitz_started_world))
  = Returned tt
      (final (on_poll_answer (mkanswer "poll-1" 100 [0%nat])
                blitz_started_world)).
Proof.
  apply (on_poll_answer_once (mkanswer "poll-1" 100 [0%nat])
           blitz_started_world).
  vm_compute. reflexivity.
Defined.

Lemma count_answer_blitz c uid sess s :
  BLITZ_SESSIONS s !! uid = Some sess ->
  BLITZ_SESSIONS (count_answer c true uid s)
  = <[uid := if c
             then mkblitz (active sess) (correct sess + 1) (wrong sess)
                    (until sess) (job sess)
             else mkblitz (active sess) (correct sess) (wrong sess + 1)
                    (until sess) (job sess)]> (BLITZ_SESSIONS s).
Proof. intros H. unfold count_answer. destruct c; by rewrite H. Qed.

(** X13.  While a user's blitz session is running, each answer to one of
    its polls adds one to exactly one counter of the session, [correct]
    when the chosen option is the correct one and [wrong] otherwise, and
    leaves every other session as it is. *)
Theorem on_poll_answer_blitz_counts
    (ans : poll_answer) (info : poll_info) (chosen : nat) (rest : list nat)
    (sess : blitz_session) (s : world) :
  ACTIVE_POLLS s !! poll_id ans = Some info ->
  user ans = tg_user_id info ->
  is_blitz info = true ->
  option_ids ans = chosen :: rest ->
  BLITZ_SESSIONS s !! user ans = Some sess ->
  BLITZ_SESSIONS (final (on_poll_answer ans s))
  = <[user ans :=
        if bool_decide (chosen = correct_idx info)
        then mkblitz (active sess) (correct sess + 1) (wrong sess)
               (until sess) (job sess)
        else mkblitz (active sess) (correct sess) (wrong sess + 1)
               (until sess) (job sess)]> (BLITZ_SESSIONS s).
Proof.
  intros Hinfo Huser Hblitz Hopt Hsess. unfold on_poll_answer.
  rewrite Hinfo, Huser, Z.eqb_refl, Hopt, Hblitz. simpl negb. cbv iota.
  set (sc := if bool_decide (chosen = correct_idx info) then _ else _).
  assert (Hsc : sc = Returned tt (final sc)).
  { unfold sc. destruct (bool_decide _); by apply record_stat_returns. }
  assert (Hb : BLITZ_SESSIONS (final sc) = BLITZ_SESSIONS s).
  { unfold sc. destruct (bool_decide _); apply record_stat_BLITZ_SESSIONS. }
  rewrite Hsc.
  set (s1 := send_message _ (count_answer _ _ _ (final sc))).
  assert (H1 : BLITZ_SESSIONS s1
               = <[tg_user_id info :=
                     if bool_decide (chosen = correct_idx info)
                     then mkblitz (active sess) (correct sess + 1)
                            (wrong sess) (until sess) (job sess)
                     else mkblitz (active sess) (correct sess)
                            (wrong sess + 1) (until sess) (job sess)]>
                   (BLITZ_SESSIONS s)).
  { unfold s1. simpl. rewrite (count_answer_blitz _ _ sess).
    - by rewrite Hb.
    - by rewrite Hb, <- Huser. }
  pose proof (send_blitz_poll_app_frame (chat_id info) (db_user_id info)
                (tg_user_id info) (group_id info) s1) as [_ F].
  destruct (send_blitz_poll_app _ _ _ _ s1); simpl in *; congruence.
Qed.

Lemma on_poll_answer_blitz_counts_witness :
  BLITZ_SESSIONS (final (on_poll_answer (mkanswer "poll-1" 100 [1%nat])
                           blitz_started_world)) !! 100
  = Some (mkblitz true 0 1 1728000060 100).
Proof.
  rewrite (on_poll_answer_blitz_counts (mkanswer "poll-1" 100 [1%nat])
             (mkpoll 100 501 100 1 1 0%nat None 1 true) 1%nat []
             (mkblitz true 0 0 1728000060 100) blitz_started_world).
  - vm_compute. reflexivity.
  - vm_compute. reflexivity.
  - reflexivity.
  - reflexivity.
  - reflexivity.
  - vm_compute. reflexivity.
Defined.

(** X14.  When its timer fires, a blitz session is reported once and
    removed: the message carries the two counters, their sum as the total
    and [7 * correct - 4 * wrong] as the score; the words and every other
    session are untouched, and a second firing does nothing. *)
Theorem blitz_time_up_job_reports
    (tg : Z) (sess : blitz_session) (s : world) :
  BLITZ_SESSIONS s !! tg = Some sess ->
  let s' := final (blitz_time_up_job tg s) in
  outbox s'
  = outbox s ++ [BlitzTimeUp tg (correct sess) (wrong sess)
                   (correct sess + wrong sess)
                   (7 * correct sess - 4 * wrong sess)] /\
  BLITZ_SESSIONS s' = delete tg (BLITZ_SESSIONS s) /\
  words (store s') = words (store s) /\
  stats (store s') = stats (store s) /\
  blitz_time_up_job tg s' = Returned tt s'.
Proof.
  intros Hsess s'.
  assert (Hagain : blitz_time_up_job tg s' = Returned tt s').
  { pose proof (blitz_time_up_job_removes tg s) as Hn. fold s' in Hn.
    unfold blitz_time_up_job. by rewrite Hn. }
  split; [|split; [|split; [|split; [|exact Hagain]]]];
    clear Hagain; subst s'; unfold blitz_time_up_job; rewrite Hsess;
    unfold get_or_create_user; destruct (find _ _); simpl; try done;
    unfold POINTS_FOR_CORRECT_BLITZ, POINTS_FOR_WRONG;
    do 3 f_equal; lia.
Qed.

Lemma blitz_time_up_job_reports_witness :
  outbox blitz_over_world
  = outbox blitz_started_world ++ [BlitzTimeUp 100 0 0 (0 + 0) (7 * 0 - 4 * 0)].
Proof.
  apply (blitz_time_up_job_reports 100 (mkblitz true 0 0 1728000060 100)
           blitz_started_world).
  vm_compute. reflexivity.
Defined.

(** ** Users *)

Lemma get_or_create_user_known tg name s row :
  find (fun r => User.tg_id r =? tg) (users (store s)) = Some row ->
  get_or_create_user tg name s
  = (User.id row,
     commit (with_users
               (map (fun r => if User.tg_id r =? tg
                              then User.set_username (default "" name) r
                              else r) (users (store s))) (store s)) s).
Proof. intros E. unfold get_or_create_user. by rewrite E. Qed.

Lemma get_or_create_user_new tg name s :
  find (fun r => User.tg_id r =? tg) (users (store s)) = None ->
  get_or_create_user tg name s
  = (next_rowid (seq_users (store s)) (map User.id (users (store s))),
     commit (with_seq_users
               (next_rowid (seq_users (store s))
                  (map User.id (users (store s))))
               (with_users
                  (users (store s) ++
                   [User.mk (next_rowid (seq_users (store s))
                               (map User.id (users (store s))))
                      tg (default "" name) "user" 0]) (store s))) s).
Proof. intros E. unfold get_or_create_user. by rewrite E. Qed.

(** X15.  [get_or_create_user] gives a Telegram account one row for good:
    for a known account it returns the id of its row and only rewrites the
    stored username (to the empty text when none is given), for an unknown
    one it appends a row with a fresh id, role "user" and 0 points; asked
    again, with whatever username, it returns the same id and adds no
    row. *)
Theorem get_or_create_user_same_id
    (tg : Z) (name name' : option string) (s : world) :
  let uid := fst (get_or_create_user tg name s) in
  let s' := snd (get_or_create_user tg name s) in
  (forall row,
      find (fun r => User.tg_id r =? tg) (users (store s)) = Some row ->
      uid = User.id row /\
      users (store s')
      = map (fun r => if User.tg_id r =? tg
                      then User.set_username (default "" name) r else r)
            (users (store s))) /\
  (find (fun r => User.tg_id r =? tg) (users (store s)) = None ->
   (forall r, r ∈ users (store s) -> User.id r < uid) /\
   users (store s')
   = users (store s) ++ [User.mk uid tg (default "" name) "user" 0]) /\
  fst (get_or_create_user tg name' s') = uid /\
  length (users (store (snd (get_or_create_user tg name' s'))))
  = length (users (store s')) /\
  words (store s') = words (store s).
Proof.
  intros uid s'. subst uid s'.
  destruct (find (fun r => User.tg_id r =? tg) (users (store s)))
    as [row|] eqn:E.
  - rewrite (get_or_create_user_known tg name s row E). simpl.
    split; [by intros ? [= <-]|]. split; [done|].
    rewrite (get_or_create_user_known tg name' _
               (User.set_username (default "" name) row)); simpl.
    + split; [reflexivity|]. by rewrite !length_map.
    + rewrite (find_map_update User.tg_id tg
                 (User.set_username (default "" name))) by done.
      by rewrite E.
  - rewrite (get_or_create_user_new tg name s E). simpl.
    split; [done|]. split.
    + intros _. split; [|done].
      intros r Hr. apply next_rowid_above. by apply list_elem_of_fmap_2.
    + rewrite (get_or_create_user_known tg name' _
                 (User.mk (next_rowid (seq_users (store s))
                             (map User.id (users (store s))))
                    tg (default "" name) "user" 0)); simpl.
      * split; [reflexivity|]. by rewrite !length_map.
      * apply find_none_app_last; [|simpl; apply Z.eqb_refl].
        intros y Hy. apply (find_none _ _ E). by apply list_elem_of_In.
Qed.

Lemma get_or_create_user_same_id_witness :
  fst (get_or_create_user 100 None demo_world) = 1 /\
  map User.username
    (users (store (snd (get_or_create_user 100 None demo_world)))) = [""].
Proof.
  destruct (get_or_create_user_same_id 100 None None demo_world) as (H1 & _).
  destruct (H1 (User.mk 1 100 "ali" "user" 3)) as [Hid Hus].
  - reflexivity.
  - split; [exact Hid|]. rewrite Hus. reflexivity.
Defined.

(** ** Lines of text *)

Lemma lstrip_split (l : str) :
  exists ws, l = ws ++ lstrip l /\ forallb isspace ws = true /\
             match lstrip l with
             | [] => True
             | c :: _ => isspace c = false
             end.
Proof.
  induction l as [|c l (ws & Hl & Hws & Hhd)]; simpl.
  - by exists [].
  - destruct (isspace c) eqn:E.
    + exists (c :: ws). simpl. rewrite E, Hws. split; [by f_equal|done].
    + exists []. simpl. by rewrite E.
Qed.

Lemma lstrip_app_space (ws l : str) :
  forallb isspace ws = true -> lstrip (ws ++ l) = lstrip l.
Proof.
  induction ws as [|c ws IH]; simpl; [done|].
  intros [-> H]%andb_prop. by apply IH.
Qed.

Lemma lstrip_head (c : N) (l : str) :
  isspace c = false -> lstrip (c :: l) = c :: l.
Proof. intros H. simpl. by rewrite H. Qed.

Lemma lstrip_nonspace_app (l l' : str) c :
  lstrip l = c :: l' -> forall m, lstrip (l ++ m) = c :: l' ++ m.
Proof.
  induction l as [|d l IH]; simpl; [discriminate|].
  destruct (isspace d); [exact IH|].
  intros [= -> ->] m. done.
Qed.

Lemma lstrip_idem (l : str) : lstrip (lstrip l) = lstrip l.
Proof.
  destruct (lstrip_split l) as (ws & _ & _ & Hhd).
  destruct (lstrip l) as [|c l']; [done|]. by apply lstrip_head.
Qed.

Lemma lstrip_sublist (l : str) : forall c, c ∈ lstrip l -> c ∈ l.
Proof.
  destruct (lstrip_split l) as (ws & Hl & _). intros c Hc.
  rewrite Hl. apply elem_of_app. by right.
Qed.

Lemma elem_of_rev {A} (l : list A) (x : A) : x ∈ rev l <-> x ∈ l.
Proof. rewrite !list_elem_of_In. symmetry. apply in_rev. Qed.

Lemma rstrip_sublist (l : str) : forall c, c ∈ rstrip l -> c ∈ l.
Proof.
  intros c Hc. unfold rstrip in Hc.
  rewrite elem_of_rev in Hc. apply lstrip_sublist in Hc.
  by rewrite elem_of_rev in Hc.
Qed.

Lemma strip_sublist (l : str) : forall c, c ∈ strip l -> c ∈ l.
Proof. intros c Hc. by apply lstrip_sublist, rstrip_sublist. Qed.

(** A text with no white space at either end. *)
Lemma rstrip_keeps_head (c : N) (l : str) :
  isspace c = false -> exists l', rstrip (c :: l) = c :: l'.
Proof.
  intros Hc. unfold rstrip. simpl.
  destruct (lstrip (rev l ++ [c])) as [|d m] eqn:E.
  - exfalso. destruct (lstrip_split (rev l ++ [c])) as (ws & Hl & Hws & _).
    rewrite E, app_nil_r in Hl. subst ws.
    rewrite forallb_app in Hws. apply andb_prop in Hws as [_ Hws].
    simpl in Hws. by rewrite Hc in Hws.
  - destruct (lstrip_split (rev l ++ [c])) as (ws & Hl & _).
    rewrite E in Hl.
    assert (Hrev : rev (d :: m) ++ rev ws = c :: l).
    { rewrite <- rev_app_distr, <- Hl, rev_app_distr, rev_involutive. done. }
    destruct (rev (d :: m)) as [|x xs] eqn:Er.
    + apply (f_equal (@length N)) in Er. rewrite length_rev in Er.
      discriminate.
    + simpl in Hrev. injection Hrev as -> _. by exists xs.
Qed.

Lemma strip_idem (l : str) : strip (strip l) = strip l.
Proof.
  unfold strip.
  destruct (lstrip_split l) as (_ & _ & _ & Hhd).
  destruct (lstrip l) as [|c m] eqn:E; [done|].
  destruct (rstrip_keeps_head c m Hhd) as [m' Hr]. rewrite Hr.
  rewrite (lstrip_head c m') by done. rewrite <- Hr.
  unfold rstrip. rewrite rev_involutive, lstrip_idem. done.
Qed.

Lemma lstrip_length (l : str) : (length (lstrip l) <= length l)%nat.
Proof.
  induction l as [|c l IH]; simpl; [done|].
  destruct (isspace c); simpl; lia.
Qed.

Lemma rstrip_length (l : str) : (length (rstrip l) <= length l)%nat.
Proof.
  unfold rstrip. rewrite length_rev.
  etrans; [apply lstrip_length|]. by rewrite length_rev.
Qed.

Lemma strip_fixed (x : str) c m :
  strip x = x -> x = c :: m ->
  isspace c = false /\ lstrip x = x /\ rstrip x = x.
Proof.
  intros Hs ->. unfold strip in Hs.
  destruct (isspace c) eqn:Hc.
  - exfalso. simpl in Hs. rewrite Hc in Hs.
    apply (f_equal (@length N)) in Hs. simpl in Hs.
    pose proof (rstrip_length (lstrip m)). pose proof (lstrip_length m). lia.
  - rewrite (lstrip_head c m Hc) in *. done.
Qed.

Lemma strip_pad (ws1 ws2 x : str) :
  forallb isspace ws1 = true -> forallb isspace ws2 = true ->
  strip x = x -> x <> [] ->
  strip (ws1 ++ x ++ ws2) = x.
Proof.
  intros H1 H2 Hs Hx. destruct x as [|c m]; [done|].
  destruct (strip_fixed (c :: m) c m Hs eq_refl) as (Hc & Hl & Hr).
  unfold strip. rewrite (lstrip_app_space ws1) by done.
  rewrite (lstrip_nonspace_app (c :: m) m c Hl ws2).
  change (c :: m ++ ws2) with ((c :: m) ++ ws2).
  unfold rstrip. rewrite rev_app_distr.
  rewrite (lstrip_app_space (rev ws2)).
  - exact Hr.
  - rewrite forallb_forall in *. intros y Hy. apply H2. by apply in_rev.
Qed.

Lemma split_once_app (sep : N) (a b : str) :
  sep ∉ a -> split_once sep (a ++ sep :: b) = Some (a, b).
Proof.
  induction a as [|c a IH]; intros Hn; simpl.
  - by rewrite N.eqb_refl.
  - apply not_elem_of_cons in Hn as [Hc Ha].
    destruct (N.eqb_spec c sep); [congruence|]. by rewrite IH.
Qed.

Lemma split_once_Some (sep : N) (l a b : str) :
  split_once sep l = Some (a, b) -> l = a ++ sep :: b /\ sep ∉ a.
Proof.
  revert a b. induction l as [|c l IH]; intros a b; simpl; [discriminate|].
  destruct (N.eqb_spec c sep) as [->|Hc].
  - intros [= <- <-]. split; [done | apply not_elem_of_nil].
  - destruct (split_once sep l) as [[a' b']|]; [|discriminate].
    intros [= <- <-]. destruct (IH a' b' eq_refl) as [-> Hn].
    split; [done|]. apply not_elem_of_cons. split; [congruence | done].
Qed.

Lemma split_once_None (sep : N) (l : str) :
  split_once sep l = None <-> sep ∉ l.
Proof.
  induction l as [|c l IH]; simpl.
  - split; [intros _; apply not_elem_of_nil | done].
  - destruct (N.eqb_spec c sep) as [->|Hc].
    + split; [discriminate|]. intros Hn. exfalso. apply Hn, list_elem_of_here.
    + rewrite not_elem_of_cons. destruct (split_once sep l) as [[a b]|].
      * split; [discriminate|]. intros [_ Hn]. by apply IH in Hn.
      * split; [|done]. intros _. split; [congruence|]. by apply IH.
Qed.

Lemma elem_of_replace (a b : N) (l : str) (c : N) :
  c ∈ replace a b l <-> (c = b /\ a ∈ l) \/ (c ∈ l /\ c <> a).
Proof.
  unfold replace. rewrite list_elem_of_fmap. split.
  - intros (y & -> & Hy). destruct (N.eqb_spec y a) as [->|Hne]; auto.
  - intros [[-> Ha] | [Hc Hne]].
    + exists a. by rewrite N.eqb_refl.
    + exists c. split; [|done]. by destruct (N.eqb_spec c a).
Qed.

Lemma replace_absent (a b : N) (l : str) : a ∉ l -> replace a b l = l.
Proof.
  unfold replace. induction l as [|c l IH]; simpl; [done|].
  intros [Hc Hl]%not_elem_of_cons.
  destruct (N.eqb_spec c a); [congruence|]. by rewrite IH.
Qed.

Lemma replace_app (a b : N) (l l' : str) :
  replace a b (l ++ l') = replace a b l ++ replace a b l'.
Proof. apply map_app. Qed.

Lemma space_not_dash (ws : str) :
  forallb isspace ws = true ->
  (HYPHEN ∉ ws) /\ (EN_DASH ∉ ws) /\ (EM_DASH ∉ ws).
Proof.
  intros H. rewrite forallb_forall in H.
  repeat split; intros Hin%list_elem_of_In; apply H in Hin; discriminate.
Qed.

Ltac replace_cases :=
  repeat match goal with
  | H : _ ∈ replace _ _ _ |- _ =>
      apply elem_of_replace in H as [[? ?] | [? ?]]
  end.

Lemma normalized_no_dash (line : str) :
  let normalized := replace EM_DASH HYPHEN (replace EN_DASH HYPHEN line) in
  (EN_DASH ∉ normalized) /\ (EM_DASH ∉ normalized) /\
  (HYPHEN ∈ normalized <->
   HYPHEN ∈ line \/ EN_DASH ∈ line \/ EM_DASH ∈ line) /\
  (COLON ∈ normalized <-> COLON ∈ line).
Proof.
  intros normalized. subst normalized.
  split; [|split; [|split; split]].
  - intros H. replace_cases; done.
  - intros H. replace_cases; done.
  - intros H. replace_cases; auto; done.
  - intros [H | [H | H]]; apply elem_of_replace.
    + right. split; [|done]. apply elem_of_replace. by right.
    + right. split; [|done]. apply elem_of_replace. by left.
    + left. split; [done|]. apply elem_of_replace. by right.
  - intros H. replace_cases; done.
  - intros H. apply elem_of_replace. right. split; [|done].
    apply elem_of_replace. by right.
Qed.

Lemma parse_word_line_inr (line eng uz : str) :
  parse_word_line line = inr (eng, uz) ->
  exists a b sep,
    (sep = HYPHEN \/
     (sep = COLON /\
      HYPHEN ∉ replace EM_DASH HYPHEN (replace EN_DASH HYPHEN line))) /\
    replace EM_DASH HYPHEN (replace EN_DASH HYPHEN line) = a ++ sep :: b /\
    (sep ∉ a) /\ eng = strip a /\ uz = strip b /\ eng <> [] /\ uz <> [].
Proof.
  unfold parse_word_line.
  destruct line as [|c0 line0]; [discriminate|].
  destruct (strip (c0 :: line0)) as [|? ?]; [discriminate|].
  set (normalized := replace EM_DASH HYPHEN (replace EN_DASH HYPHEN _)).
  destruct (split_once HYPHEN normalized) as [[a b]|] eqn:Eh.
  - destruct (strip a) as [|e1 e2] eqn:Ea; [discriminate|].
    destruct (strip b) as [|u1 u2] eqn:Eb; [discriminate|].
    intros [= <- <-]. apply split_once_Some in Eh as [Hn Ha].
    exists a, b, HYPHEN. split; [by left|]. repeat split; try done; congruence.
  - destruct (split_once COLON normalized) as [[a b]|] eqn:Ec; [|discriminate].
    cbv zeta.
    destruct (strip a) as [|e1 e2] eqn:Ea; [discriminate|].
    destruct (strip b) as [|u1 u2] eqn:Eb; [discriminate|].
    rewrite <- Ea, <- Eb.
    intros [= <- <-]. apply split_once_Some in Ec as [Hn Ha].
    apply split_once_None in Eh.
    exists a, b, COLON. split; [by right|]. repeat split; try done; congruence.
Qed.

(** X16.  Whatever [parse_word_line] returns is usable as a word pair:
    both texts are non-empty and carry no white space at either end; the
    English text contains no hyphen, en dash or em dash (the line is cut at
    its first dash), and the translation no en dash or em dash (they have
    become hyphens). *)
Theorem parse_word_line_parts (line eng uz : str) :
  parse_word_line line = inr (eng, uz) ->
  eng <> [] /\ uz <> [] /\ strip eng = eng /\ strip uz = uz /\
  (HYPHEN ∉ eng) /\ (EN_DASH ∉ eng) /\ (EM_DASH ∉ eng) /\
  (EN_DASH ∉ uz) /\ (EM_DASH ∉ uz).
Proof.
  intros (a & b & sep & Hsep & Hn & Ha & -> & -> & He & Hu)%parse_word_line_inr.
  destruct (normalized_no_dash line) as (Hen & Hem & _ & _).
  cbv zeta in Hen, Hem. rewrite Hn in Hen, Hem.
  rewrite !not_elem_of_app, !not_elem_of_cons in Hen, Hem.
  destruct Hen as (Hen_a & _ & Hen_b), Hem as (Hem_a & _ & Hem_b).
  split; [done|]. split; [done|].
  split; [apply strip_idem|]. split; [apply strip_idem|].
  repeat split; intros Hin%strip_sublist; try done.
  destruct Hsep as [-> | [-> Hnone]]; [done|].
  apply Hnone. rewrite Hn. apply elem_of_app. by left.
Qed.

Lemma parse_word_line_parts_witness :
  [119; 101; 108; 108]%N <> [] /\
  (HYPHEN ∉ [119; 101; 108; 108]%N).
Proof.
  destruct (parse_word_line_parts
              [119; 101; 108; 108; 45; 107; 110; 111; 119; 110; 32; 45; 32;
               109; 97; 115; 104; 104; 117; 114]%N
              [119; 101; 108; 108]%N
              [107; 110; 111; 119; 110; 32; 45; 32; 109; 97; 115; 104; 104;
               117; 114]%N)
    as (H1 & _ & _ & _ & H2 & _).
  - vm_compute. reflexivity.
  - split; [exact H1 | exact H2].
Defined.

(** X17.  [parse_word_line] raises "empty line" exactly for a line that is
    empty or all white space, and "no separator found" exactly for a line
    with some other character but no hyphen, en dash, em dash or colon. *)
Theorem parse_word_line_errors (line : str) :
  (parse_word_line line = inl EmptyLine <-> strip line = []) /\
  (parse_word_line line = inl NoSeparator <->
   strip line <> [] /\ (HYPHEN ∉ line) /\ (EN_DASH ∉ line) /\
   (EM_DASH ∉ line) /\ (COLON ∉ line)).
Proof.
  destruct (normalized_no_dash line) as (_ & _ & Hh & Hc).
  cbv zeta in Hh, Hc.
  unfold parse_word_line.
  destruct line as [|c0 line0]; [split; split; try done; by intros []|].
  destruct (strip (c0 :: line0)) as [|s1 s2] eqn:Es;
    [split; split; try done; by intros []|].
  set (normalized := replace EM_DASH HYPHEN (replace EN_DASH HYPHEN _)) in *.
  destruct (split_once HYPHEN normalized) as [[a b]|] eqn:Eh.
  - apply split_once_Some in Eh as [Hn _].
    assert (Hin : HYPHEN ∈ normalized).
    { rewrite Hn. apply elem_of_app. right. apply list_elem_of_here. }
    apply Hh in Hin.
    split; (split; [by repeat case_match|]); [done|].
    intros (_ & H1 & H2 & H3 & _). destruct Hin as [?|[?|?]]; done.
  - apply split_once_None in Eh.
    destruct (split_once COLON normalized) as [[a b]|] eqn:Ec.
    + apply split_once_Some in Ec as [Hn _].
      assert (Hin : COLON ∈ normalized).
      { rewrite Hn. apply elem_of_app. right. apply list_elem_of_here. }
      apply Hc in Hin.
      split; (split; [by repeat case_match|]); [done|].
      by intros (_ & _ & _ & _ & H4).
    + apply split_once_None in Ec.
      split; [done|]. split; [|done]. intros _. split; [done|].
      rewrite Hh in Eh. rewrite Hc in Ec. tauto.
Qed.

Lemma lstrip_nil (l : str) : lstrip l = [] <-> forallb isspace l = true.
Proof.
  induction l as [|c l IH]; simpl; [done|].
  destruct (isspace c); simpl; [exact IH | done].
Qed.

Lemma forallb_rev {A} (p : A -> bool) (l : list A) :
  forallb p (rev l) = forallb p l.
Proof.
  apply eq_true_iff_eq. rewrite !forallb_forall.
  split; intros H x Hx; apply H.
  - by rewrite <- in_rev.
  - by rewrite <- in_rev in Hx.
Qed.

Lemma strip_nil (l : str) : strip l = [] <-> forallb isspace l = true.
Proof.
  unfold strip, rstrip. split.
  - intros H. apply (f_equal (@rev N)) in H. rewrite rev_involutive in H.
    simpl in H. apply lstrip_nil in H. rewrite forallb_rev in H.
    destruct (lstrip_split l) as (ws & Hl & Hws & Hhd).
    destruct (lstrip l) as [|c m] eqn:E; [by apply lstrip_nil|].
    simpl in H. by rewrite Hhd in H.
  - intros H. apply lstrip_nil in H. by rewrite H.
Qed.

Lemma parse_word_line_of_parts (line a b : str) :
  strip line <> [] ->
  replace EM_DASH HYPHEN (replace EN_DASH HYPHEN line) = a ++ HYPHEN :: b ->
  (HYPHEN ∉ a) -> strip a <> [] -> strip b <> [] ->
  parse_word_line line = inr (strip a, strip b).
Proof.
  intros Hs Hn Ha Hea Heb. unfold parse_word_line.
  destruct line as [|c0 l0]; [done|].
  destruct (strip (c0 :: l0)); [done|].
  rewrite Hn, (split_once_app HYPHEN a b Ha). cbv zeta.
  destruct (strip a); [done|]. by destruct (strip b).
Qed.

(** X18.  A line made of an English text, a hyphen, en dash or em dash
    with any white space around it, and a translation parses back to the
    two texts, provided both are non-empty without white space at their
    ends, the English text has no dash and the translation no en or em
    dash; a colon inside the English text does not matter. *)
Theorem parse_word_line_round_trip
    (eng uz ws0 ws1 ws2 ws3 : str) (dash : N) :
  strip eng = eng -> eng <> [] ->
  strip uz = uz -> uz <> [] ->
  (HYPHEN ∉ eng) -> (EN_DASH ∉ eng) -> (EM_DASH ∉ eng) ->
  (EN_DASH ∉ uz) -> (EM_DASH ∉ uz) ->
  forallb isspace ws0 = true -> forallb isspace ws1 = true ->
  forallb isspace ws2 = true -> forallb isspace ws3 = true ->
  dash = HYPHEN \/ dash = EN_DASH \/ dash = EM_DASH ->
  parse_word_line (ws0 ++ eng ++ ws1 ++ dash :: ws2 ++ uz ++ ws3)
  = inr (eng, uz).
Proof.
  intros Hse He Hsu Hu Hh_e Hen_e Hem_e Hen_u Hem_u H0 H1 H2 H3 Hdash.
  destruct (space_not_dash ws0 H0) as (A0 & B0 & C0).
  destruct (space_not_dash ws1 H1) as (A1 & B1 & C1).
  destruct (space_not_dash ws2 H2) as (A2 & B2 & C2).
  destruct (space_not_dash ws3 H3) as (A3 & B3 & C3).
  set (line := ws0 ++ eng ++ ws1 ++ dash :: ws2 ++ uz ++ ws3).
  assert (Ha : strip (ws0 ++ eng ++ ws1) = eng) by (by apply strip_pad).
  assert (Hb : strip (ws2 ++ uz ++ ws3) = uz) by (by apply strip_pad).
  transitivity (@inr parse_error _
                  (strip (ws0 ++ eng ++ ws1), strip (ws2 ++ uz ++ ws3)));
    [|by rewrite Ha, Hb].
  apply parse_word_line_of_parts.
  - intros Hn%strip_nil. subst line.
    rewrite !forallb_app in Hn.
    destruct eng as [|c m]; [done|].
    destruct (strip_fixed (c :: m) c m Hse eq_refl) as (Hc & _).
    simpl in Hn. rewrite Hc in Hn.
    apply andb_prop in Hn as [_ Hn]. discriminate.
  - subst line.
    replace (dash :: ws2 ++ uz ++ ws3) with ([dash] ++ ws2 ++ uz ++ ws3)
      by done.
    rewrite !replace_app.
    rewrite !(replace_absent EN_DASH HYPHEN ws0),
            !(replace_absent EN_DASH HYPHEN eng),
            !(replace_absent EN_DASH HYPHEN ws1),
            !(replace_absent EN_DASH HYPHEN ws2),
            !(replace_absent EN_DASH HYPHEN uz),
            !(replace_absent EN_DASH HYPHEN ws3) by done.
    rewrite !(replace_absent EM_DASH HYPHEN ws0),
            !(replace_absent EM_DASH HYPHEN eng),
            !(replace_absent EM_DASH HYPHEN ws1),
            !(replace_absent EM_DASH HYPHEN ws2),
            !(replace_absent EM_DASH HYPHEN uz),
            !(replace_absent EM_DASH HYPHEN ws3) by done.
    rewrite <- !app_assoc.
    by destruct Hdash as [-> | [-> | ->]].
  - rewrite !not_elem_of_app. done.
  - by rewrite Ha.
  - by rewrite Hb.
Qed.

Lemma parse_word_line_round_trip_witness :
  parse_word_line
    ([32; 32] ++ [97; 58; 98] ++ [32] ++ EN_DASH :: [9] ++ [99; 45; 100]
     ++ [10])%N
  = inr ([97; 58; 98]%N, [99; 45; 100]%N).
Proof.
  apply parse_word_line_round_trip; try reflexivity; try discriminate;
    try (unfold HYPHEN, EN_DASH, EM_DASH; apply (bool_decide_unpack _);
         reflexivity).
Defined.

Lemma blank_not_parses (line : str) : blank line = true -> parses line = false.
Proof.
  unfold blank, parses. intros H.
  destruct (parse_word_line_errors line) as [[_ He] _].
  destruct (strip line); [|discriminate]. by rewrite He.
Qed.

Lemma add_words_loop_spec u g (lines : list str) :
  forall idx added errors s,
  exists new errs s',
    add_words_loop u g idx lines added errors s
    = (added + Z.of_nat (length (filter (fun l => parses l) lines)),
       errors ++ errs, s') /\
    words (store s') = words (store s) ++ new /\
    length new = length (filter (fun l => parses l) lines) /\
    Forall (fun w => Word.user_id w = u /\ Word.group_id w = g) new /\
    (length errs + length (filter (fun l => parses l) lines)
     + length (filter (fun l => blank l) lines) = length lines)%nat /\
    Forall (fun ie => idx <= fst ie /\
                      exists line,
                        lines !! Z.to_nat (fst ie - idx) = Some line /\
                        parse_word_line line = inl (snd ie)) errs.
Proof.
  induction lines as [|line rest IH]; intros idx added errors s.
  - exists [], [], s. simpl. rewrite Z.add_0_r, !app_nil_r. done.
  - assert (Hshift : forall errs,
      Forall (fun ie => idx + 1 <= fst ie /\
                        exists l, rest !! Z.to_nat (fst ie - (idx + 1)) = Some l /\
                                  parse_word_line l = inl (snd ie)) errs ->
      Forall (fun ie => idx <= fst ie /\
                        exists l, (line :: rest) !! Z.to_nat (fst ie - idx)
                                  = Some l /\
                                  parse_word_line l = inl (snd ie)) errs).
    { intros errs HF. eapply Forall_impl; [exact HF|].
      intros [i e] [Hi (l & Hl & Hp)].
      simpl in *. split; [lia|]. exists l. split; [|done].
      replace (Z.to_nat (i - idx)) with (S (Z.to_nat (i - (idx + 1)))) by lia.
      done. }
    destruct (blank line) eqn:Hb.
    + pose proof (blank_not_parses line Hb) as Hp.
      destruct (IH (idx + 1) added errors s)
        as (new & errs & s' & Hrun & Hw & Hl & Hall & Hcnt & Herr).
      exists new, errs, s'.
      rewrite (filter_cons_False (fun l => parses l))
        by (intros HH; by rewrite Hp in HH).
      rewrite (filter_cons_True (fun l => blank l))
        by (by apply Is_true_true).
      split; [|repeat split; try done; [simpl; lia | by apply Hshift]].
      simpl. unfold blank in Hb.
      destruct line as [|c l0]; [exact Hrun|].
      destruct (strip (c :: l0)); [exact Hrun | discriminate].
    + assert (Hstep : add_words_loop u g idx (line :: rest) added errors s
        = match parse_word_line line with
          | inr (eng, uz) =>
              add_words_loop u g (idx + 1) rest (added + 1) errors
                (final (add_word u (utf8 eng) (utf8 uz) g s))
          | inl e =>
              add_words_loop u g (idx + 1) rest added (errors ++ [(idx, e)]) s
          end).
      { simpl. unfold blank in Hb.
        destruct line as [|c l0]; [by simpl in Hb|].
        by destruct (strip (c :: l0)). }
      rewrite Hstep.
      rewrite (filter_cons_False (fun l => blank l))
        by (intros HH; by rewrite Hb in HH).
      destruct (parse_word_line line) as [e|[eng uz]] eqn:Hparse.
      * destruct (IH (idx + 1) added (errors ++ [(idx, e)]) s)
          as (new & errs & s' & Hrun & Hw & Hl & Hall & Hcnt & Herr).
        exists new, ((idx, e) :: errs), s'.
        rewrite (filter_cons_False (fun l => parses l))
          by (unfold parses; intros HH; by rewrite Hparse in HH).
        rewrite Hrun, <- app_assoc.
        repeat split; try done; [simpl; lia|].
        constructor; [|by apply Hshift].
        simpl. split; [lia|]. exists line. rewrite Z.sub_diag. done.
      * destruct (IH (idx + 1) (added + 1) errors
                    (final (add_word u (utf8 eng) (utf8 uz) g s)))
          as (new & errs & s' & Hrun & Hw & Hl & Hall & Hcnt & Herr).
        eexists (_ :: new), errs, s'.
        rewrite (filter_cons_True (fun l => parses l))
          by (unfold parses; by rewrite Hparse).
        rewrite Hrun. simpl length.
        split; [do 2 f_equal; lia|].
        split; [rewrite Hw; simpl; by rewrite <- app_assoc|].
        split; [by rewrite Hl|].
        split; [by constructor|].
        split; [lia | by apply Hshift].
Qed.

(** X19.  [add_words_from_lines] accounts for every line: a line is either
    blank (skipped), or added, or reported; the returned count is the
    number of lines that parse, that many rows are appended to [words] for
    the given user and group while the rows already there stay, and each
    reported error carries the 1-based number of a line that
    [parse_word_line] rejects with that error. *)
Theorem add_words_from_lines_accounts
    (u : Z) (lines : list str) (g : option Z) (s : world) :
  exists new errors s',
    add_words_from_lines u lines g s
    = (Z.of_nat (length (filter (fun l => parses l) lines)), errors, s') /\
    words (store s') = words (store s) ++ new /\
    length new = length (filter (fun l => parses l) lines) /\
    Forall (fun w => Word.user_id w = u /\ Word.group_id w = g) new /\
    (length errors + length (filter (fun l => parses l) lines)
     + length (filter (fun l => blank l) lines) = length lines)%nat /\
    Forall (fun ie => 1 <= fst ie /\
                      exists line,
                        lines !! Z.to_nat (fst ie - 1) = Some line /\
                        parse_word_line line = inl (snd ie)) errors.
Proof.
  destruct (add_words_loop_spec u g lines 1 0 [] s)
    as (new & errs & s' & Hrun & H).
  exists new, errs, s'. split; [|exact H].
  unfold add_words_from_lines. by rewrite Hrun.
Qed.

Example add_words_from_lines_demo :
  let lines := [[99; 97; 116; 32; 45; 32; 109]; []; [32];
                [120; 95; 121]; [32; 45; 32; 122];
                [100; 58; 105]]%N in
  let r := add_words_from_lines 1 lines None demo_world in
  fst (fst r) = 2 /\
  snd (fst r) = [(4, NoSeparator); (5, EmptyPart)] /\
  map Word.english (words (store (snd r))) = ["cat"; "dog"; "cat"; "d"].
Proof. vm_compute. repeat split. Qed.

(** ** More on the trigonometry quiz *)

Lemma process_answers_tally answers : forall st qd st',
  Math.math_quiz_session st = Some qd ->
  Math.process_answers answers st = Some st' ->
  exists qd',
    Math.math_quiz_session st' = Some qd' /\
    Math.score qd' - Math.score qd
    = Math.correct_count qd' - Math.correct_count qd /\
    length (Math.math_quiz_answers (Math.db st'))
    = (length (Math.math_quiz_answers (Math.db st)) + length answers)%nat /\
    (Math.current_index qd' <= length (Math.questions qd') \/
     answers = [])%nat.
Proof.
  induction answers as [|a rest IH]; intros st qd st' Hqd Hrun.
  - simpl in Hrun. injection Hrun as <-. exists qd.
    split; [done|]. split; [lia|]. split; [simpl; lia|]. by right.
  - simpl in Hrun.
    destruct (Math.process_answer a st) as [st1|] eqn:Hstep; [|discriminate].
    unfold Math.process_answer in Hstep. rewrite Hqd in Hstep.
    destruct (Math.questions qd !! Math.current_index qd) as [q|] eqn:Hq;
      [|discriminate].
    destruct (Math.check_answer q a) as [b|] eqn:Hb; [|discriminate].
    destruct (Math.options q !! a) as [ua|]; [|discriminate].
    injection Hstep as <-.
    match type of Hrun with
    | Math.process_answers _ ?s1 = _ =>
        destruct (IH s1 _ st' eq_refl Hrun) as (qd' & H1 & H2 & H3 & H4);
        destruct (process_answers_counts rest s1 _ st' eq_refl Hrun)
          as (qd2 & G1 & _ & G3 & G4 & _)
    end.
    rewrite H1 in G1. injection G1 as <-.
    simpl in *. exists qd'. split; [done|].
    split; [destruct b; lia|]. split; [rewrite H3, length_app; simpl; lia|].
    left. destruct H4 as [H4 | ->]; [done|].
    simpl in G4. rewrite G3, G4, Nat.add_0_r.
    apply lookup_lt_Some in Hq. lia.
Qed.

(** X20.  While a quiz runs, its counters add up: after any answers that
    were accepted, the index of the current question has advanced by their
    number, [correct_count] and [wrong_count] have grown by that number in
    total, the score of the quiz object has grown as [correct_count] has,
    one row per answer has been stored, and the index does not pass the
    number of questions. *)
Theorem process_answers_counters
    (answers : list nat) (st st' : Math.state) (qd : Math.quiz_data) :
  Math.math_quiz_session st = Some qd ->
  Math.process_answers answers st = Some st' ->
  (Math.current_index qd <= length (Math.questions qd))%nat ->
  exists qd',
    Math.math_quiz_session st' = Some qd' /\
    Math.questions qd' = Math.questions qd /\
    Math.current_index qd'
    = (Math.current_index qd + length answers)%nat /\
    (Math.current_index qd' <= length (Math.questions qd))%nat /\
    Math.correct_count qd <= Math.correct_count qd' /\
    Math.wrong_count qd <= Math.wrong_count qd' /\
    (Math.correct_count qd' - Math.correct_count qd)
    + (Math.wrong_count qd' - Math.wrong_count qd)
    = Z.of_nat (length answers) /\
    Math.score qd' - Math.score qd
    = Math.correct_count qd' - Math.correct_count qd /\
    length (Math.math_quiz_answers (Math.db st'))
    = (length (Math.math_quiz_answers (Math.db st)) + length answers)%nat.
Proof.
  intros Hqd Hrun Hidx.
  destruct (process_answers_counts answers st qd st' Hqd Hrun)
    as (qd' & G1 & G2 & G3 & G4 & G5 & G6 & _).
  destruct (process_answers_tally answers st qd st' Hqd Hrun)
    as (qd2 & H1 & H2 & H3 & H4).
  rewrite G1 in H1. injection H1 as <-.
  assert (Hr : 0 <= Math.right_answers
                      (drop (Math.current_index qd) (Math.questions qd))
                      answers <= Z.of_nat (length answers)).
  { generalize (drop (Math.current_index qd) (Math.questions qd)).
    clear. induction answers as [|a rest IH]; intros qs.
    - destruct qs; simpl; lia.
    - destruct qs as [|q qs]; simpl; [lia|].
      specialize (IH qs). case_bool_decide; lia. }
  exists qd'. repeat split; try done; try lia.
  rewrite <- G3. destruct H4 as [H4 | ->]; [done|].
  rewrite G4. simpl. rewrite G3. lia.
Qed.

Lemma process_answers_counters_witness :
  exists st5 qd5,
    Math.process_answers [0; 1; 2; 0; 1]%nat
      (default Math.demo_state
         (Math.start_quiz (Some 1) 100 Math.demo_questions [] 5
            Math.demo_state)) = Some st5 /\
    Math.math_quiz_session st5 = Some qd5 /\
    Math.current_index qd5 = 5%nat /\
    Math.score qd5 - 0 = Math.correct_count qd5 - 0.
Proof.
  pose (st0 := default Math.demo_state
                 (Math.start_quiz (Some 1) 100 Math.demo_questions [] 5
                    Math.demo_state)).
  pose (st5 := default st0 (Math.process_answers [0; 1; 2; 0; 1]%nat st0)).
  destruct (process_answers_counters [0; 1; 2; 0; 1]%nat st0 st5
              (default (Math.mkquiz_data 0 0 [] 0 0 0)
                 (Math.math_quiz_session st0)))
    as (qd5 & H1 & _ & H3 & _ & _ & _ & _ & H8 & _).
  - vm_compute. reflexivity.
  - vm_compute. reflexivity.
  - vm_compute. lia.
  - exists st5, qd5. split; [vm_compute; reflexivity|].
    split; [exact H1|]. split; [exact H3 | exact H8].
Defined.

(** ** Deleting a group *)

Lemma is_admin_store ADMIN_IDS tg s :
  store (snd (is_admin ADMIN_IDS tg s)) = store s /\
  WORDS_CACHE (snd (is_admin ADMIN_IDS tg s)) = WORDS_CACHE s /\
  GROUPS_CACHE (snd (is_admin ADMIN_IDS tg s)) = GROUPS_CACHE s /\
  QUIZ_CACHE (snd (is_admin ADMIN_IDS tg s)) = QUIZ_CACHE s.
Proof.
  unfold is_admin. case_bool_decide; [done|].
  unfold db_role_is_admin, get_user_row_by_tg. simpl. done.
Qed.

Lemma is_admin_listed ADMIN_IDS tg s :
  tg ∈ ADMIN_IDS -> fst (is_admin ADMIN_IDS tg s) = true.
Proof. intros H. unfold is_admin. by rewrite bool_decide_eq_true_2. Qed.

Lemma is_admin_stranger ADMIN_IDS tg s :
  tg ∉ ADMIN_IDS -> fst (db_role_is_admin tg s) = false ->
  fst (is_admin ADMIN_IDS tg s) = false.
Proof. intros H E. unfold is_admin. by rewrite bool_decide_eq_false_2. Qed.

Lemma elem_of_filter_negb {A} (p : A -> bool) (l : list A) (x : A) :
  x ∈ filter (fun y => negb (p y)) l <-> x ∈ l /\ p x = false.
Proof.
  rewrite list_elem_of_filter. split.
  - intros [Hp Hin]. split; [done|]. by destruct (p x).
  - intros [Hin Hp]. split; [|done]. by rewrite Hp.
Qed.

(** X21.  [delete_group] asked by the owner of the group, or by an id
    listed in [ADMIN_IDS], returns True; it removes the group, every
    membership of the group and exactly the words of the group, whoever
    owns them, leaves the users alone and empties the three caches. *)
Theorem delete_group_effect
    (ADMIN_IDS : gset Z) (g requester : Z) (row : Group.row) (s : world) :
  find (fun r => Group.id r =? g) (groups (store s)) = Some row ->
  Group.owner_id row = requester \/ requester ∈ ADMIN_IDS ->
  let o := delete_group ADMIN_IDS g requester s in
  o = Returned true (final o) /\
  (forall w, w ∈ words (store (final o)) <->
             w ∈ words (store s) /\ Word.group_id w <> Some g) /\
  (forall r, r ∈ groups (store (final o)) <->
             r ∈ groups (store s) /\ Group.id r <> g) /\
  (forall ug, ug ∈ users_groups (store (final o)) <->
              ug ∈ users_groups (store s) /\ snd ug <> g) /\
  users (store (final o)) = users (store s) /\
  WORDS_CACHE (final o) = ∅ /\
  GROUPS_CACHE (final o) = ∅ /\
  QUIZ_CACHE (final o) = ∅.
Proof.
  intros Hrow Hwho o. subst o. unfold delete_group. rewrite Hrow.
  assert (Hall : exists s1,
    (if Group.owner_id row =? requester then (true, s)
     else is_admin ADMIN_IDS requester s) = (true, s1)).
  { destruct (Z.eqb_spec (Group.owner_id row) requester) as [E|E];
      [by exists s|].
    destruct Hwho as [Hwho|Hwho]; [done|].
    pose proof (is_admin_listed ADMIN_IDS requester s Hwho) as Ha.
    destruct (is_admin ADMIN_IDS requester s) as [b s1]. simpl in Ha.
    subst b. by exists s1. }
  destruct Hall as [s1 ->]. simpl.
  split; [done|]. split.
  { intros w.
    etrans; [exact (elem_of_delete_words (in_group g) (store s) w)|].
    unfold in_group. destruct (Word.group_id w) as [g'|].
    - rewrite Z.eqb_neq. split; intros [? ?]; split; congruence.
    - split; intros [? ?]; split; done. }
  split.
  { intros r.
    etrans; [exact (elem_of_filter_negb (fun r => Group.id r =? g) _ r)|].
    by rewrite Z.eqb_neq. }
  split; [|done].
  intros ug.
  etrans; [exact (elem_of_filter_negb (fun ug => snd ug =? g) _ ug)|].
  by rewrite Z.eqb_neq.
Qed.

Lemma delete_group_effect_witness :
  words (store (final (delete_group ∅ 5 1 class_world))) = [demo_cat] /\
  forall r, r ∈ groups (store (final (delete_group ∅ 5 1 class_world))) ->
            Group.id r <> 5.
Proof.
  destruct (delete_group_effect ∅ 5 1 (Group.mk 5 "class" 1) class_world)
    as (_ & _ & H & _).
  - reflexivity.
  - left. reflexivity.
  - split; [reflexivity|]. intros r Hr. by apply H in Hr as [_ Hr].
Defined.

(** X22.  A requester who neither owns the group nor is an admin (by
    [ADMIN_IDS] or by role) is refused: [delete_group] and
    [delete_group_word] return False and change no table and no cache. *)
Theorem delete_group_refused
    (ADMIN_IDS : gset Z) (g requester : Z) (s : world) :
  fst (is_group_owner requester g s) = false ->
  requester ∉ ADMIN_IDS ->
  fst (db_role_is_admin requester s) = false ->
  (let o := delete_group ADMIN_IDS g requester s in
   o = Returned false (final o) /\ store (final o) = store s /\
   WORDS_CACHE (final o) = WORDS_CACHE s /\
   GROUPS_CACHE (final o) = GROUPS_CACHE s /\
   QUIZ_CACHE (final o) = QUIZ_CACHE s) /\
  (forall wid,
     let o := delete_group_word ADMIN_IDS wid g requester s in
     o = Returned false (final o) /\ store (final o) = store s /\
     WORDS_CACHE (final o) = WORDS_CACHE s).
Proof.
  intros Hown Hlist Hrole.
  pose proof (is_admin_stranger ADMIN_IDS requester s Hlist Hrole) as Hadm.
  split.
  - unfold delete_group. unfold is_group_owner in Hown. simpl in Hown.
    destruct (find _ (groups (store s))) as [row|]; [|done].
    rewrite Hown.
    destruct (is_admin ADMIN_IDS requester s) as [b s1] eqn:E.
    simpl in Hadm. subst b. simpl.
    pose proof (is_admin_store ADMIN_IDS requester s) as Hs.
    rewrite E in Hs. simpl in Hs. by destruct Hs as (_ & -> & -> & ->).
  - intros wid. unfold delete_group_word.
    unfold is_group_owner in *. simpl in Hown. rewrite Hown.
    set (s0 := commit (store s) s).
    assert (Hadm0 : fst (is_admin ADMIN_IDS requester s0) = false).
    { by apply is_admin_stranger. }
    pose proof (is_admin_store ADMIN_IDS requester s0) as Hs.
    destruct (is_admin ADMIN_IDS requester s0) as [b s1].
    simpl in Hadm0, Hs. subst b. simpl.
    by destruct Hs as (-> & -> & _).
Qed.

Lemma delete_group_refused_witness :
  delete_group ∅ 5 3 class_world
  = Returned false (final (delete_group ∅ 5 3 class_world)) /\
  store (final (delete_group_word ∅ 2 5 3 class_world)) = class_db.
Proof.
  destruct (delete_group_refused ∅ 5 3 class_world) as [[H _] H'].
  - reflexivity.
  - apply not_elem_of_empty.
  - reflexivity.
  - split; [exact H|]. by destruct (H' 2) as (_ & -> & _).
Defined.
